(** * Phishing-email detector: feature extraction and preprocessing

    A shallow embedding of [feature_extractor.py], [data_preprocessor.py],
    the loading, prediction and [/predict] code of [app.py],
    [predict_email] of [cli.py] and [extract_features] of
    [model_trainer.py], with the properties the specification states about
    them (C1 to C10) and further properties read off the code (X1 on).

    Conventions.
    - A Python [str] is a list of Unicode code points ([text]).
    - Python's Unicode database ([str.isspace], [str.isupper],
      [str.isalnum], [str.lower]) is an interface ([Unicode]); every
      theorem holds for every implementation of it.  [ascii_db] is the
      implementation on the ASCII range, used to run the definitions.
    - The regular expressions of the source are values of [regex], run by a
      backtracking matcher that follows the [re] module (leftmost match,
      greedy repetition, alternatives tried in order).
    - BeautifulSoup, NLTK, scikit-learn and the word-cloud library are not
      part of the repository: they are interfaces ([TextLibs], [Sklearn],
      [Estimators], [WordCloud]) whose operations may raise.
    - numpy float arrays are lists of exact rationals. *)

From Stdlib Require Import Ascii String DecimalString DecimalNat.
From Stdlib Require Import List Bool Arith NArith ZArith QArith Lia.
Import ListNotations.

Close Scope Q_scope.
Set Implicit Arguments.

(** ** Text *)

Definition char := N.
Definition text := list char.

Definition chr (a : ascii) : char := N_of_ascii a.
Definition str (s : string) : text := map chr (list_ascii_of_string s).

Definition char_eqb (a b : char) : bool := N.eqb a b.

Fixpoint text_eqb (a b : text) : bool :=
  match a, b with
  | [], [] => true
  | x :: a', y :: b' => char_eqb x y && text_eqb a' b'
  | _, _ => false
  end.

(** [not s] for a string: only the empty string is falsy. *)
Definition falsy (s : text) : bool :=
  match s with [] => true | _ :: _ => false end.

(** Python's Unicode database, as far as the program consults it. *)
Class Unicode := {
  isspace : char -> bool;   (* whitespace of [str.split()] and of [\s] *)
  isupper : char -> bool;   (* [c.isupper()] on a one-character string *)
  isalnum : char -> bool;   (* alphanumerics of [\w] *)
  lower : text -> text      (* [s.lower()] *)
}.

(** ** Exceptions *)

Inductive exn :=
| NotFittedError
| ValueError
| IndexError
| AttributeError
| LibraryError (name : string).

Inductive result (A : Type) :=
| Ok (a : A)
| Raise (e : exn).
Arguments Ok {A} a.
Arguments Raise {A} e.

Definition bind {A B} (m : result A) (f : A -> result B) : result B :=
  match m with
  | Ok a => f a
  | Raise e => Raise e
  end.

Notation "x <- m ;; k" := (bind m (fun x => k))
  (at level 61, m at next level, right associativity).

(** A list comprehension whose body may raise: left to right, the first
    exception ends it. *)
Fixpoint mapM {A B} (f : A -> result B) (l : list A) : result (list B) :=
  match l with
  | [] => Ok []
  | x :: l' => y <- f x ;; ys <- mapM f l' ;; Ok (y :: ys)
  end.

(** ** Regular expressions *)

Module Re.

(** One item of a bracket expression. *)
Inductive item :=
| Rng (lo hi : ascii)     (* [lo-hi] *)
| Chr (c : ascii)         (* a single character *)
| Space.                  (* [\s] *)

Inductive regex :=
| Lit (c : ascii)                          (* a literal character *)
| Set_ (negated : bool) (items : list item) (* [...] and [^...] *)
| Cat (r1 r2 : regex)                      (* r1 r2 *)
| Alt (r1 r2 : regex)                      (* r1|r2 *)
| Opt (r : regex)                          (* r? *)
| Star (r : regex)                         (* r* *)
| WordB.                                   (* \b *)

(** [r+] and [r{2,}], by their expansions, which try the same matches in
    the same order. *)
Definition Plus (r : regex) : regex := Cat r (Star r).
Definition AtLeast2 (r : regex) : regex := Cat r (Cat r (Star r)).

(** A literal string, character by character. *)
Fixpoint lits (s : string) : regex :=
  match s with
  | EmptyString => Opt (Set_ false [])
  | String c EmptyString => Lit c
  | String c s' => Cat (Lit c) (lits s')
  end.

Section Matcher.
Context {U : Unicode}.

Definition item_has (c : char) (i : item) : bool :=
  match i with
  | Rng lo hi => N.leb (chr lo) c && N.leb c (chr hi)
  | Chr a => char_eqb c (chr a)
  | Space => isspace c
  end.

Definition set_has (negated : bool) (items : list item) (c : char) : bool :=
  xorb negated (existsb (item_has c) items).

(** [\w]: alphanumerics and the underscore. *)
Definition isword (c : char) : bool := isalnum c || char_eqb c (chr "_").

Definition isword_opt (c : option char) : bool :=
  match c with Some c => isword c | None => false end.

(** A matcher takes the character before the current position (for
    [\b]), the input from that position on, and a continuation that
    receives the last character consumed and the rest of the input and
    matches what follows.  [None] makes the caller backtrack. *)
Definition matcher (A : Type) : Type :=
  option char -> text -> (option char -> text -> option A) -> option A.

(** Greedy repetition of [body]: one more round is tried first, and what
    follows the repetition only when that fails.  A round has to consume
    input.  [fuel] bounds the rounds; the length of the input is enough. *)
Fixpoint star_loop (A : Type) (body : matcher A)
    (k : option char -> text -> option A) (fuel : nat)
    (prev : option char) (s : text) : option A :=
  match fuel with
  | O => k prev s
  | S fuel' =>
      match body prev s (fun prev' s' =>
              if Nat.ltb (length s') (length s)
              then star_loop body k fuel' prev' s' else None) with
      | Some res => Some res
      | None => k prev s
      end
  end.

(** [m r prev s k]: match [r] at the front of [s]. *)
Fixpoint m (A : Type) (r : regex) (prev : option char) (s : text)
    (k : option char -> text -> option A) {struct r} : option A :=
  match r with
  | Lit a =>
      match s with
      | c :: s' => if char_eqb c (chr a) then k (Some c) s' else None
      | [] => None
      end
  | Set_ neg items =>
      match s with
      | c :: s' => if set_has neg items c then k (Some c) s' else None
      | [] => None
      end
  | Cat r1 r2 => m r1 prev s (fun prev' s' => m r2 prev' s' k)
  | Alt r1 r2 =>
      match m r1 prev s k with
      | Some res => Some res
      | None => m r2 prev s k
      end
  | Opt r1 =>
      match m r1 prev s k with
      | Some res => Some res
      | None => k prev s
      end
  | Star r1 => star_loop (m r1) k (length s) prev s
  | WordB =>
      if xorb (isword_opt prev) (isword_opt (hd_error s)) then k prev s
      else None
  end.

(** [pattern.match] at one position: the last character of the match and
    the input after it. *)
Definition match_at (r : regex) (prev : option char) (s : text)
  : option (option char * text) :=
  m r prev s (fun prev' s' => Some (prev', s')).

(** Prepend one unmatched character to the scan of the rest. *)
Definition gap_cons (c : char) (res : list (text * text) * text)
  : list (text * text) * text :=
  match res with
  | ([], tl) => ([], c :: tl)
  | ((g, mt) :: ps, tl) => ((c :: g, mt) :: ps, tl)
  end.

(** The non-overlapping matches of [r] in [s], left to right: each with the
    unmatched text before it, and the unmatched text after the last one.
    No pattern of the program matches the empty string; a match that
    consumes nothing counts as none. *)
Fixpoint scan (fuel : nat) (r : regex) (prev : option char) (s : text)
  : list (text * text) * text :=
  match fuel with
  | O => ([], s)
  | S fuel' =>
      match s with
      | [] => ([], [])
      | c :: s' =>
          match match_at r prev s with
          | Some (prev', rest) =>
              if Nat.ltb (length rest) (length s) then
                let mt := firstn (length s - length rest) s in
                let (ps, tl) := scan fuel' r prev' rest in
                (([], mt) :: ps, tl)
              else gap_cons c (scan fuel' r (Some c) s')
          | None => gap_cons c (scan fuel' r (Some c) s')
          end
      end
  end.

(** The text that a scan result covers: gaps and matches in order. *)
Definition unscan (res : list (text * text) * text) : text :=
  concat (map (fun gm => fst gm ++ snd gm) (fst res)) ++ snd res.

Definition finditer (r : regex) (s : text) : list (text * text) * text :=
  scan (length s) r None s.

(** [pattern.findall(s)] for a pattern without groups. *)
Definition findall (r : regex) (s : text) : list text :=
  map snd (fst (finditer r s)).

(** [pattern.sub('', s)]. *)
Definition sub_empty (r : regex) (s : text) : text :=
  concat (map fst (fst (finditer r s))) ++ snd (finditer r s).

(** [re.split(pattern, s)] for a pattern without groups. *)
Definition split (r : regex) (s : text) : list text :=
  map fst (fst (finditer r s)) ++ [snd (finditer r s)].

End Matcher.
End Re.

(** ** Built-in string operations *)

Module Py.
Section Builtins.
Context {U : Unicode}.

(** [s.split()]: the maximal runs of non-whitespace characters. *)
Fixpoint split_from (cur : text) (s : text) : list text :=
  match s with
  | [] => match cur with [] => [] | _ :: _ => [rev cur] end
  | c :: s' =>
      if isspace c then
        match cur with
        | [] => split_from [] s'
        | _ :: _ => rev cur :: split_from [] s'
        end
      else split_from (c :: cur) s'
  end.

Definition split (s : text) : list text := split_from [] s.

(** [s.count(c)] for a one-character [c]. *)
Definition count (c : ascii) (s : text) : nat :=
  length (filter (char_eqb (chr c)) s).

Fixpoint startswith (p s : text) : bool :=
  match p, s with
  | [], _ => true
  | x :: p', y :: s' => char_eqb x y && startswith p' s'
  | _ :: _, [] => false
  end.

(** [needle in hay]. *)
Fixpoint contains (needle hay : text) : bool :=
  startswith needle hay ||
  match hay with
  | [] => false
  | _ :: hay' => contains needle hay'
  end.

(** [sep.join(l)]. *)
Fixpoint join (sep : text) (l : list text) : text :=
  match l with
  | [] => []
  | [x] => x
  | x :: l' => x ++ sep ++ join sep l'
  end.

(** [sum(1 for c in s if c.isupper())]. *)
Definition count_upper (s : text) : nat := length (filter isupper s).

End Builtins.
End Py.

(** The Unicode database restricted to ASCII: what Python computes on
    texts whose characters are all below 128. *)
Definition ascii_isspace (c : char) : bool :=
  (N.leb 9 c && N.leb c 13) || (N.leb 28 c && N.leb c 32).
Definition ascii_isupper (c : char) : bool := N.leb 65 c && N.leb c 90.
Definition ascii_islower (c : char) : bool := N.leb 97 c && N.leb c 122.
Definition ascii_isdigit (c : char) : bool := N.leb 48 c && N.leb c 57.
Definition ascii_lower_char (c : char) : char :=
  if ascii_isupper c then (c + 32)%N else c.

#[export] Instance ascii_db : Unicode := {|
  isspace := ascii_isspace;
  isupper := ascii_isupper;
  isalnum := fun c => ascii_isupper c || ascii_islower c || ascii_isdigit c;
  lower := map ascii_lower_char
|}.

(** ** Third-party text libraries *)

(** BeautifulSoup and NLTK, as [EmailPreprocessor] calls them.  Each call
    either returns or raises. *)
Class TextLibs := {
  (* [BeautifulSoup(text, 'html.parser').get_text()] *)
  get_text : text -> result text;
  (* [nltk.tokenize.word_tokenize] *)
  word_tokenize : text -> result (list text);
  (* [PorterStemmer().stem] *)
  stem : text -> result text;
  (* [set(stopwords.words('english'))] *)
  stop_words : list text
}.

(** ** data_preprocessor.py *)

Module EmailPreprocessor.
Import Re.

(** [http[s]?://(?:[a-zA-Z]|[0-9]|[$-_@.&+]|[!*\\(\\),]|(?:%[0-9a-fA-F][0-9a-fA-F]))+] *)
Definition url_pattern : regex :=
  Cat (lits "http") (Cat (Opt (Set_ false [Chr "s"])) (Cat (lits "://")
    (Plus
       (Alt (Set_ false [Rng "a" "z"; Rng "A" "Z"])
       (Alt (Set_ false [Rng "0" "9"])
       (Alt (Set_ false [Rng "$" "_"; Chr "@"; Chr "."; Chr "&"; Chr "+"])
       (Alt (Set_ false [Chr "!"; Chr "*"; Chr "\"; Chr "("; Chr "\";
                         Chr ")"; Chr ","])
            (Cat (Lit "%")
              (Cat (Set_ false [Rng "0" "9"; Rng "a" "f"; Rng "A" "F"])
                   (Set_ false [Rng "0" "9"; Rng "a" "f"; Rng "A" "F"])))))))))).

(** [\b[A-Za-z0-9._%+-]+@[A-Za-z0-9.-]+\.[A-Z|a-z]{2,}\b] *)
Definition email_pattern : regex :=
  Cat WordB
 (Cat (Plus (Set_ false [Rng "A" "Z"; Rng "a" "z"; Rng "0" "9"; Chr ".";
                         Chr "_"; Chr "%"; Chr "+"; Chr "-"]))
 (Cat (Lit "@")
 (Cat (Plus (Set_ false [Rng "A" "Z"; Rng "a" "z"; Rng "0" "9"; Chr ".";
                         Chr "-"]))
 (Cat (Lit ".")
 (Cat (AtLeast2 (Set_ false [Rng "A" "Z"; Chr "|"; Rng "a" "z"]))
      WordB))))).

(** [[^a-zA-Z\s]] *)
Definition special_pattern : regex :=
  Set_ true [Rng "a" "z"; Rng "A" "Z"; Space].

Section Methods.
Context {U : Unicode} {L : TextLibs}.

Definition remove_html_tags (txt : text) : result text :=
  if falsy txt then Ok [] else get_text txt.

Definition remove_urls (txt : text) : text := sub_empty url_pattern txt.

Definition remove_emails (txt : text) : text := sub_empty email_pattern txt.

Definition remove_special_chars (txt : text) : text :=
  sub_empty special_pattern txt.

(** [token not in self.stop_words and len(token) > 2] *)
Definition keep_token (token : text) : bool :=
  negb (existsb (text_eqb token) stop_words) && Nat.ltb 2 (length token).

Definition tokenize_and_clean (txt : text) : result (list text) :=
  if falsy txt then Ok []
  else
    tokens <- word_tokenize (lower txt) ;;
    let tokens := filter keep_token tokens in
    tokens <- mapM stem tokens ;;
    Ok tokens.

Definition preprocess_email (email_text : text) : result text :=
  if falsy email_text then Ok []
  else
    txt <- remove_html_tags email_text ;;
    let txt := remove_urls txt in
    let txt := remove_emails txt in
    let txt := remove_special_chars txt in
    tokens <- tokenize_and_clean txt ;;
    Ok (Py.join (str " ") tokens).

Definition extract_urls (txt : text) : list text :=
  if falsy txt then [] else findall url_pattern txt.

Definition extract_emails (txt : text) : list text :=
  if falsy txt then [] else findall email_pattern txt.

End Methods.
End EmailPreprocessor.

(** ** scikit-learn's TF-IDF vectorizer *)

(** What [fit] learns: the vocabulary (one column per term) and the
    inverse document frequency of every term. *)
Record TfidfFit := {
  vocabulary_ : list text;
  idf_ : list Q
}.

Record TfidfVectorizer := {
  max_features : nat;
  ngram_range : nat * nat;
  stop_words_option : string;
  fit_state : option TfidfFit      (* [None] until [fit] has run *)
}.

(** The numeric side of the vectorizer, which the program never looks
    into: which terms a corpus has, and how a term is weighted. *)
Class Sklearn := {
  (* the distinct n-grams of a corpus for a range and a stop-word list,
     the most frequent first *)
  ranked_terms : nat * nat -> string -> list text -> list text;
  inverse_document_frequency : list text -> text -> Q;
  (* the weight of one vocabulary term in one document *)
  tfidf_weight : TfidfFit -> text -> text -> Q
}.

Module Tfidf.
Section Methods.
Context {K : Sklearn}.

(** [fit] keeps the [max_features] most frequent terms and raises
    [ValueError] on an empty vocabulary. *)
Definition fit (v : TfidfVectorizer) (docs : list text)
  : result TfidfVectorizer :=
  let vocab :=
    firstn (max_features v)
           (ranked_terms (ngram_range v) (stop_words_option v) docs) in
  match vocab with
  | [] => Raise ValueError
  | _ :: _ =>
      Ok {| max_features := max_features v;
            ngram_range := ngram_range v;
            stop_words_option := stop_words_option v;
            fit_state :=
              Some {| vocabulary_ := vocab;
                      idf_ := map (inverse_document_frequency docs) vocab |} |}
  end.

(** [transform(docs).toarray()]: one row per document, one column per
    vocabulary term; [NotFittedError] before [fit]. *)
Definition transform (v : TfidfVectorizer) (docs : list text)
  : result (list (list Q)) :=
  match fit_state v with
  | None => Raise NotFittedError
  | Some f => Ok (map (fun d => map (tfidf_weight f d) (vocabulary_ f)) docs)
  end.

End Methods.

(** [get_feature_names_out()]: the vocabulary terms in column order;
    [NotFittedError] before [fit]. *)
Definition get_feature_names_out (v : TfidfVectorizer) : result (list text) :=
  match fit_state v with
  | None => Raise NotFittedError
  | Some f => Ok (vocabulary_ f)
  end.

End Tfidf.

(** ** feature_extractor.py *)

Definition of_int (n : nat) : Q := inject_Z (Z.of_nat n).

(** [np.zeros(n)] *)
Definition zeros (n : nat) : list Q := repeat 0%Q n.

(** [np.mean] of a non-empty list of integers. *)
Definition mean (l : list nat) : Q := (of_int (list_sum l) / of_int (length l))%Q.

Record FeatureExtractor := {
  tfidf_vectorizer : TfidfVectorizer
}.

(** [str(i)] for a non-negative integer: its decimal digits. *)
Definition str_of_nat (i : nat) : string :=
  NilEmpty.string_of_uint (Nat.to_uint i).

Module FeatureExtractor.
Import Re.

(** [__init__]: the vectorizer's configuration. *)
Definition init : FeatureExtractor :=
  {| tfidf_vectorizer :=
       {| max_features := 1000;
          ngram_range := (1, 2);
          stop_words_option := "english";
          fit_state := None |} |}.

(** [self.suspicious_words], assigned in [__init__] and never changed. *)
Definition suspicious_words : list text :=
  map str
    [ "urgent"; "immediate"; "act now"; "limited time"; "expires";
      "click here"; "click now"; "verify"; "confirm"; "update";
      "suspend"; "suspended"; "account"; "security"; "alert";
      "warning"; "congratulations"; "winner"; "prize"; "lottery";
      "free"; "bonus"; "offer"; "deal"; "discount"; "save";
      "money"; "cash"; "credit"; "loan"; "debt"; "investment";
      "guarantee"; "risk-free"; "no obligation"; "act fast";
      "don't delay"; "hurry"; "rush"; "now"; "today only";
      "limited offer"; "exclusive"; "special"; "amazing";
      "incredible"; "unbelievable"; "fantastic"; "wonderful" ]%string.

(** [[.!?]+] *)
Definition sentence_end : regex :=
  Plus (Set_ false [Chr "."; Chr "!"; Chr "?"]).

Section Methods.
Context {U : Unicode} {L : TextLibs} {K : Sklearn}.

(** [sum(1 for word in self.suspicious_words
          if word.lower() in email_text.lower())] *)
Definition suspicious_count (email_text : text) : nat :=
  length (filter (fun word => Py.contains (lower word) (lower email_text))
                 suspicious_words).

Definition extract_basic_features (email_text : text) : list Q :=
  if falsy email_text then zeros 8
  else
    let text_length := length email_text in
    let word_count := length (Py.split email_text) in
    let char_count := length email_text in
    let urls := EmailPreprocessor.extract_urls email_text in
    let url_count := length urls in
    let emails := EmailPreprocessor.extract_emails email_text in
    let email_count := length emails in
    let suspicious_count := suspicious_count email_text in
    let uppercase_ratio :=
      (of_int (Py.count_upper email_text)
       / of_int (Nat.max (length email_text) 1))%Q in
    let exclamation_count := Py.count "!" email_text in
    [ of_int text_length; of_int word_count; of_int char_count;
      of_int url_count; of_int email_count; of_int suspicious_count;
      uppercase_ratio; of_int exclamation_count ].

Definition extract_advanced_features (email_text : text) : list Q :=
  if falsy email_text then zeros 5
  else
    let words := Py.split email_text in
    let avg_word_length :=
      match words with
      | [] => 0%Q
      | _ :: _ => mean (map (@length char) words)
      end in
    let sentence_count := length (Re.split sentence_end email_text) in
    let avg_sentence_length :=
      (of_int (length words) / of_int (Nat.max sentence_count 1))%Q in
    let question_count := Py.count "?" email_text in
    let capital_count := Py.count_upper email_text in
    [ avg_word_length; of_int sentence_count; avg_sentence_length;
      of_int question_count; of_int capital_count ].

Definition fit_tfidf (self : FeatureExtractor) (email_texts : list text)
  : result FeatureExtractor :=
  processed_texts <- mapM EmailPreprocessor.preprocess_email email_texts ;;
  v <- Tfidf.fit (tfidf_vectorizer self) processed_texts ;;
  Ok {| tfidf_vectorizer := v |}.

Definition extract_tfidf_features (self : FeatureExtractor)
    (email_text : text) : result (list Q) :=
  processed_text <- EmailPreprocessor.preprocess_email email_text ;;
  tfidf_features <- Tfidf.transform (tfidf_vectorizer self) [processed_text] ;;
  match tfidf_features with
  | row :: _ => Ok row
  | [] => Raise IndexError
  end.

Definition extract_all_features (self : FeatureExtractor)
    (email_text : text) : result (list Q) :=
  let basic_features := extract_basic_features email_text in
  let advanced_features := extract_advanced_features email_text in
  tfidf_features <- extract_tfidf_features self email_text ;;
  Ok (basic_features ++ advanced_features ++ tfidf_features).

End Methods.

Definition get_feature_names (self : FeatureExtractor) : result (list text) :=
  let basic_names :=
    map str [ "text_length"; "word_count"; "char_count"; "url_count";
              "email_count"; "suspicious_count"; "uppercase_ratio";
              "exclamation_count" ]%string in
  let advanced_names :=
    map str [ "avg_word_length"; "sentence_count"; "avg_sentence_length";
              "question_count"; "capital_count" ]%string in
  terms <- Tfidf.get_feature_names_out (tfidf_vectorizer self) ;;
  let tfidf_names :=
    map (fun i => str ("tfidf_" ++ str_of_nat i)) (seq 0 (length terms)) in
  Ok (basic_names ++ advanced_names ++ tfidf_names).

(** The fitted vocabulary size [V]; 0 before [fit]. *)
Definition vocabulary_size (self : FeatureExtractor) : nat :=
  match fit_state (tfidf_vectorizer self) with
  | Some f => length (vocabulary_ f)
  | None => 0
  end.

End FeatureExtractor.

(** ** app.py: loading the persisted bundle *)

(** A fitted [StandardScaler]: one mean and one scale per column. *)
Record StandardScaler := {
  mean_ : list Q;
  scale_ : list Q
}.

(** A fitted classifier, as far as the loader can tell components apart:
    the number of columns it was trained on and its class labels. *)
Record Classifier := {
  n_features_in_ : nat;
  classes_ : list nat
}.

(** What [joblib.load] gives for each of the three paths under [models/]:
    the unpickled object, or the exception it raises (missing or corrupt
    file). *)
Record ModelFiles := {
  phishing_model_pkl : result Classifier;
  feature_extractor_pkl : result FeatureExtractor;
  scaler_pkl : result StandardScaler
}.

(** The module-level globals [model], [feature_extractor], [scaler];
    [None] is Python's [None]. *)
Record Globals := {
  model : option Classifier;
  feature_extractor : option FeatureExtractor;
  scaler : option StandardScaler
}.

(** The fitted estimators' operations on a matrix of rows; each may
    raise (scikit-learn checks the input's shape and values). *)
Class Estimators := {
  (* [scaler.transform(X)] *)
  scaler_transform : StandardScaler -> list (list Q) -> result (list (list Q));
  (* [model.predict(X)]: one label per row *)
  predict : Classifier -> list (list Q) -> result (list nat);
  (* [model.predict_proba(X)]: one row of class probabilities per row *)
  predict_proba : Classifier -> list (list Q) -> result (list (list Q))
}.

(** The [result] dictionary of a prediction. *)
Record Prediction := {
  prediction : string;
  confidence_phishing : Q;
  confidence_legitimate : Q;
  is_phishing : bool
}.

(** What [predict_phishing] returns: the three-element tuple
    [(None, None, "Model not loaded")], the pair [(result, None)], or the
    pair [(None, "Error during prediction: ...")] for a caught exception. *)
Inductive predict_outcome :=
| NotLoaded
| Predicted (r : Prediction)
| PredictionError (e : exn).

(** [l[i]] on a list or array. *)
Definition index {A} (l : list A) (i : nat) : result A :=
  match nth_error l i with
  | Some x => Ok x
  | None => Raise IndexError
  end.

Module App.

(** The state of the module when it is imported. *)
Definition init : Globals :=
  {| model := None; feature_extractor := None; scaler := None |}.

(** The three assignments run in order inside one [try]; the first
    exception ends them and the function returns [False].  Returns the
    globals afterwards and the boolean. *)
Definition load_model_components (files : ModelFiles) (g : Globals)
  : Globals * bool :=
  match phishing_model_pkl files with
  | Raise _ => (g, false)
  | Ok m =>
      let g := {| model := Some m;
                  feature_extractor := feature_extractor g;
                  scaler := scaler g |} in
      match feature_extractor_pkl files with
      | Raise _ => (g, false)
      | Ok fe =>
          let g := {| model := model g;
                      feature_extractor := Some fe;
                      scaler := scaler g |} in
          match scaler_pkl files with
          | Raise _ => (g, false)
          | Ok sc =>
              ({| model := model g;
                  feature_extractor := feature_extractor g;
                  scaler := Some sc |}, true)
          end
      end
  end.

(** The feature-vector length each component works with. *)
Definition extractor_length (fe : FeatureExtractor) : nat :=
  8 + 5 + FeatureExtractor.vocabulary_size fe.
Definition scaler_length (sc : StandardScaler) : nat := length (mean_ sc).
Definition classifier_length (m : Classifier) : nat := n_features_in_ m.

Definition lengths_agree (m : Classifier) (fe : FeatureExtractor)
    (sc : StandardScaler) : bool :=
  Nat.eqb (extractor_length fe) (scaler_length sc)
  && Nat.eqb (scaler_length sc) (classifier_length m).

Section Predict.
Context {U : Unicode} {L : TextLibs} {K : Sklearn} {E : Estimators}.

(** [all([model, feature_extractor, scaler])] holds when none of the
    globals is [None]; a loaded component is truthy.  The [try] block
    turns every exception into the error pair. *)
Definition predict_phishing (g : Globals) (email_text : text)
  : predict_outcome :=
  match model g, feature_extractor g, scaler g with
  | Some model, Some feature_extractor, Some scaler =>
      match
        features <-
          FeatureExtractor.extract_all_features feature_extractor email_text ;;
        let features := [features] in
        features_scaled <- scaler_transform scaler features ;;
        predictions <- predict model features_scaled ;;
        label <- index predictions 0 ;;
        probabilities <- predict_proba model features_scaled ;;
        probability <- index probabilities 0 ;;
        confidence_legitimate <- index probability 0 ;;
        confidence_phishing <- index probability 1 ;;
        Ok {| prediction :=
                if Nat.eqb label 1 then "Phishing" else "Legitimate";
              confidence_phishing := confidence_phishing;
              confidence_legitimate := confidence_legitimate;
              is_phishing := Nat.eqb label 1 |}
      with
      | Ok r => Predicted r
      | Raise e => PredictionError e
      end
  | _, _, _ => NotLoaded
  end.

End Predict.

End App.

(** ** cli.py *)

Module Cli.
Section Predict.
Context {U : Unicode} {L : TextLibs} {K : Sklearn} {E : Estimators}.

(** [predict_email]: the dictionary, or [None] after printing the error.
    The dictionary is built in place, so [probability[1]] is read before
    [probability[0]]. *)
Definition predict_email (email_text : text) (model : Classifier)
    (feature_extractor : FeatureExtractor) (scaler : StandardScaler)
  : option Prediction :=
  match
    features <-
      FeatureExtractor.extract_all_features feature_extractor email_text ;;
    let features := [features] in
    features_scaled <- scaler_transform scaler features ;;
    predictions <- predict model features_scaled ;;
    label <- index predictions 0 ;;
    probabilities <- predict_proba model features_scaled ;;
    probability <- index probabilities 0 ;;
    confidence_phishing <- index probability 1 ;;
    confidence_legitimate <- index probability 0 ;;
    Ok {| prediction :=
            if Nat.eqb label 1 then "Phishing" else "Legitimate";
          confidence_phishing := confidence_phishing;
          confidence_legitimate := confidence_legitimate;
          is_phishing := Nat.eqb label 1 |}
  with
  | Ok r => Some r
  | Raise _ => None
  end.

End Predict.
End Cli.

(** ** model_trainer.py *)

Module Trainer.
Section Methods.
Context {U : Unicode} {L : TextLibs} {K : Sklearn}.

(** [extract_features] reads and writes only [self.feature_extractor]:
    returns the extractor after the fit and the feature matrix, one row
    per email. *)
Definition extract_features (self : FeatureExtractor) (emails : list text)
  : result (FeatureExtractor * list (list Q)) :=
  self' <- FeatureExtractor.fit_tfidf self emails ;;
  features <- mapM (FeatureExtractor.extract_all_features self') emails ;;
  Ok (self', features).

End Methods.
End Trainer.

(** ** Stand-ins for the libraries

    Simple implementations of the library interfaces, to run the
    definitions on concrete inputs: markup is left alone, tokens are the
    whitespace-separated words, stemming changes nothing; the vocabulary is
    the corpus's distinct words in order of appearance and a weight is 1
    for a word of the document, 0 otherwise. *)

#[export] Instance plain_libs : TextLibs := {|
  get_text := fun t => Ok t;
  word_tokenize := fun t => Ok (Py.split t);
  stem := fun t => Ok t;
  stop_words := map str ["the"; "and"; "for"; "you"; "your"]%string
|}.

#[export] Instance word_sklearn : Sklearn := {|
  ranked_terms := fun _ _ docs =>
    nodup (list_eq_dec N.eq_dec) (concat (map Py.split docs));
  inverse_document_frequency := fun _ _ => 1%Q;
  tfidf_weight := fun _ d term =>
    if existsb (text_eqb term) (Py.split d) then 1%Q else 0%Q
|}.

(** Estimators that leave the rows as they are and call every row
    phishing with probability 3/4. *)
#[export] Instance constant_estimators : Estimators := {|
  scaler_transform := fun _ X => Ok X;
  predict := fun _ X => Ok (map (fun _ => 1) X);
  predict_proba := fun _ X => Ok (map (fun _ => [1 # 4; 3 # 4]%Q) X)
|}.

(** The HTML parser as it answers a text that begins with the marked
    section [<![x]]: [html.parser] (Python 3.11) raises on the unknown
    keyword [x], and BeautifulSoup turns that into [ParserRejectedMarkup].
    Other texts are treated as by [plain_libs]. *)
Definition rejected_markup : text := str "<![x]".

Definition rejecting_parser_libs : TextLibs := {|
  get_text := fun t =>
    if Py.startswith rejected_markup t
    then Raise (LibraryError "ParserRejectedMarkup")
    else Ok t;
  word_tokenize := fun t => Ok (Py.split t);
  stem := fun t => Ok t;
  stop_words := map str ["the"; "and"; "for"; "you"; "your"]%string
|}.

(** A bundle whose components were not fit together: the extractor has two
    vocabulary terms (15 columns), the scaler three columns, the classifier
    seven. *)
Definition mixed_extractor : FeatureExtractor :=
  {| tfidf_vectorizer :=
       {| max_features := 1000;
          ngram_range := (1, 2);
          stop_words_option := "english";
          fit_state := Some {| vocabulary_ := [str "click"; str "order"];
                               idf_ := [1%Q; 1%Q] |} |} |}.
Definition mixed_scaler : StandardScaler :=
  {| mean_ := [0%Q; 0%Q; 0%Q]; scale_ := [1%Q; 1%Q; 1%Q] |}.
Definition mixed_classifier : Classifier :=
  {| n_features_in_ := 7; classes_ := [0; 1] |}.
Definition mixed_files : ModelFiles :=
  {| phishing_model_pkl := Ok mixed_classifier;
     feature_extractor_pkl := Ok mixed_extractor;
     scaler_pkl := Ok mixed_scaler |}.

(** A text that names every suspicious term once. *)
Definition every_term : text :=
  Py.join (str " ") FeatureExtractor.suspicious_words.

(** The corpus of the specification's example, and the extractor fit on it
    with the stand-in libraries. *)
Definition sample_corpus : list text :=
  [str "URGENT: Click here now!"; str "Thank you for your order"].

Definition sample_fitted : FeatureExtractor :=
  match FeatureExtractor.fit_tfidf FeatureExtractor.init sample_corpus with
  | Ok fe => fe
  | Raise _ => FeatureExtractor.init
  end.

(** ** The specification's words for the sentence features *)

Module Spec.

(** The number of maximal runs of characters satisfying [p]; [inside] says
    whether the character before the text belongs to a run. *)
Fixpoint count_runs (p : char -> bool) (inside : bool) (s : text) : nat :=
  match s with
  | [] => 0
  | c :: s' =>
      if p c then (if inside then 0 else 1) + count_runs p true s'
      else count_runs p false s'
  end.

(** What is left of a text after its leading run of [p]. *)
Fixpoint drop_run (p : char -> bool) (s : text) : text :=
  match s with
  | [] => []
  | c :: s' => if p c then drop_run p s' else s
  end.

Definition is_sentence_end (c : char) : bool :=
  char_eqb c (chr ".") || char_eqb c (chr "!") || char_eqb c (chr "?").

(** Splitting on runs of [.], [!], [?] gives one piece more than there
    are runs. *)
Definition sentence_pieces (s : text) : nat :=
  S (count_runs is_sentence_end false s).

(** The whitespace-split words are the maximal runs of characters that
    are not whitespace. *)
Definition word_count {U : Unicode} (s : text) : nat :=
  count_runs (fun c => negb (isspace c)) false s.

End Spec.

(** ** The words a pattern matches *)

Module Lang.

(** Concatenations of words of [P]. *)
Inductive star (P : text -> Prop) : text -> Prop :=
| star_nil : star P []
| star_app (w1 w2 : text) : P w1 -> star P w2 -> star P (w1 ++ w2).

(** The words a pattern can match, word boundaries left aside (they
    consume nothing). *)
Fixpoint lang {U : Unicode} (r : Re.regex) (w : text) : Prop :=
  match r with
  | Re.Lit a => w = [chr a]
  | Re.Set_ negated items =>
      exists c, w = [c] /\ Re.set_has negated items c = true
  | Re.Cat r1 r2 => exists w1 w2, w = w1 ++ w2 /\ lang r1 w1 /\ lang r2 w2
  | Re.Alt r1 r2 => lang r1 w \/ lang r2 w
  | Re.Opt r1 => w = [] \/ lang r1 w
  | Re.Star r1 => star (lang r1) w
  | Re.WordB => w = []
  end.

End Lang.

(** ** Character classes in plain words *)

Module Chars.

Definition is_ascii_letter (c : char) : bool :=
  (N.leb 97 c && N.leb c 122) || (N.leb 65 c && N.leb c 90).

(** The characters a URL goes on with after its scheme: [!], the range
    from [$] to [_], and the lowercase letters. *)
Definition is_url_char (c : char) : bool :=
  N.eqb c 33 || (N.leb 36 c && N.leb c 95) || (N.leb 97 c && N.leb c 122).

(** A text that no URL can run into: empty, or starting with a character
    that is not a URL character. *)
Definition blocked (s : text) : bool :=
  match s with
  | [] => true
  | c :: _ => negb (is_url_char c)
  end.

(** A URL starts at the front of [s]. *)
Definition url_at {U : Unicode} (s : text) : Prop :=
  exists w rest,
    s = w ++ rest /\ Lang.lang EmailPreprocessor.url_pattern w.

(** No URL starts anywhere in [s]. *)
Fixpoint url_free {U : Unicode} (s : text) : Prop :=
  match s with
  | [] => True
  | _ :: s' => ~ url_at s /\ url_free s'
  end.

End Chars.

(** ** app.py: the [/predict] route *)

(** The word-cloud library as [generate_wordcloud] wraps it: the encoded
    image, or [None] when drawing raised. *)
Class WordCloud := {
  generate_wordcloud : text -> option text
}.

(** The [error] strings of the JSON answers. *)
Inductive error_message :=
| EmailTextRequired              (* 'Email text is required' *)
| PredictionFailed (e : exn)     (* 'Error during prediction: ...' *)
| ServerError (e : exn).         (* 'Server error: ...' *)

(** A JSON answer and its status code. *)
Inductive response :=
| ErrorResponse (status : nat) (error : error_message)
| PredictionResponse (r : Prediction) (wordcloud : option text).

Module Route.
Section Predict.
Context {U : Unicode} {L : TextLibs} {K : Sklearn} {E : Estimators}
        {W : WordCloud}.

(** [s.strip()]: without its leading and trailing whitespace. *)
Definition strip (s : text) : text :=
  rev (Spec.drop_run isspace (rev (Spec.drop_run isspace s))).

(** The view function for a request whose JSON body is an object;
    [field] is its ['email_text'] entry, a string, or [None] when the key
    is absent (then [data.get] gives the default ['']).  Unpacking
    [result, error = predict_phishing(...)] raises [ValueError] on the
    three-element tuple, and the outer handler answers 500. *)
Definition predict (g : Globals) (field : option text) : response :=
  let email_text := strip (match field with Some s => s | None => [] end) in
  if falsy email_text then ErrorResponse 400 EmailTextRequired
  else
    match App.predict_phishing g email_text with
    | NotLoaded => ErrorResponse 500 (ServerError ValueError)
    | PredictionError e => ErrorResponse 500 (PredictionFailed e)
    | Predicted result =>
        let wordcloud_image := generate_wordcloud email_text in
        PredictionResponse result wordcloud_image
    end.

End Predict.
End Route.

(** The ['email_text'] entry of a JSON object. *)
Inductive json_field :=
| FieldAbsent                 (* no such key: [data.get] gives [''] *)
| FieldString (s : text)
| FieldOther.                 (* null, a number, a boolean, an array, an object *)

(** The body of a request to [/predict], as [request.get_json()] sees it. *)
Inductive request_body :=
| BodyRejected (e : exn)      (* [get_json] raises [e]: invalid JSON *)
| BodyNotObject               (* [data] is no object (null, a list, a string,
                                 a number): [data.get] fails *)
| BodyObject (email_text : json_field).

Module View.
Section Predict.
Context {U : Unicode} {L : TextLibs} {K : Sklearn} {E : Estimators}
        {W : WordCloud}.

(** The whole view function: what does not reach the emptiness test
    raises inside the [try] ([get_json] itself, [AttributeError] on
    [data.get] or on [.strip()]) and the outer handler answers 500. *)
Definition predict (g : Globals) (body : request_body) : response :=
  match body with
  | BodyRejected e => ErrorResponse 500 (ServerError e)
  | BodyNotObject => ErrorResponse 500 (ServerError AttributeError)
  | BodyObject FieldOther => ErrorResponse 500 (ServerError AttributeError)
  | BodyObject FieldAbsent => Route.predict g None
  | BodyObject (FieldString s) => Route.predict g (Some s)
  end.

End Predict.
End View.

(** A word cloud that always fails to draw. *)
#[export] Instance no_wordcloud : WordCloud := {|
  generate_wordcloud := fun _ => None
|}.

(** The text libraries return on every input.  The repository's code has
    no handler around its calls to them, so whether it raises depends on
    this. *)
Definition libs_return (L : TextLibs) : Prop :=
  (forall t, exists r, get_text t = Ok r) /\
  (forall t, exists r, word_tokenize t = Ok r) /\
  (forall t, exists r, stem t = Ok r).

(** Running [f] over [l] from the left, the first call that raises is the
    call on [x], and it raises [e]: the calls before it returned. *)
Definition first_raise {A B} (f : A -> result B) (l : list A) (e : exn)
  : Prop :=
  exists pre x post,
    l = pre ++ x :: post /\
    Forall (fun y => exists b, f y = Ok b) pre /\
    f x = Raise e.

(** * Properties *)

Import EmailPreprocessor FeatureExtractor.

Lemma plain_libs_return : libs_return plain_libs.
Proof.
  repeat split; intros t; eexists; reflexivity.
Defined.

Section Shape.
Context {U : Unicode}.

Lemma length_zeros n : length (zeros n) = n.
Proof. apply repeat_length. Qed.

Lemma length_basic t : length (extract_basic_features t) = 8.
Proof. unfold extract_basic_features. destruct (falsy t); reflexivity. Qed.

Lemma length_advanced t : length (extract_advanced_features t) = 5.
Proof. unfold extract_advanced_features. destruct (falsy t); reflexivity. Qed.

(** C9: the third basic feature (character count) equals the first (text
    length), and both are the number of characters of the raw input. *)
Theorem char_count_is_text_length (t : text) :
  nth 0 (extract_basic_features t) 0%Q = of_int (length t) /\
  nth 2 (extract_basic_features t) 0%Q = of_int (length t) /\
  nth 2 (extract_basic_features t) 0%Q = nth 0 (extract_basic_features t) 0%Q.
Proof.
  destruct t as [|c t]; repeat split; reflexivity.
Qed.

End Shape.

Section EmptyInput.
Context {U : Unicode} {L : TextLibs}.

(** C4: on empty (falsy) input the statistical extractors return all-zero
    vectors of lengths 8 and 5 and the sanitizer returns the empty string
    (and the tokenizer the empty sequence); none of them raises. *)
Theorem empty_input_gives_zeros (t : text) :
  falsy t = true ->
  extract_basic_features t = [0; 0; 0; 0; 0; 0; 0; 0]%Q /\
  extract_advanced_features t = [0; 0; 0; 0; 0]%Q /\
  preprocess_email t = Ok [] /\
  remove_html_tags t = Ok [] /\
  tokenize_and_clean t = Ok [].
Proof.
  intros H.
  unfold extract_basic_features, extract_advanced_features, preprocess_email,
    remove_html_tags, tokenize_and_clean.
  rewrite H. repeat split; reflexivity.
Qed.

End EmptyInput.

Lemma empty_input_gives_zeros_witness :
  falsy (str "") = true /\
  extract_basic_features (str "") = [0; 0; 0; 0; 0; 0; 0; 0]%Q /\
  preprocess_email (str "") = Ok [].
Proof.
  split; [reflexivity|].
  destruct (@empty_input_gives_zeros ascii_db plain_libs (str "") eq_refl)
    as (Hb & _ & Hp & _).
  split; [exact Hb | exact Hp].
Defined.

(** [test_url_extraction] of the repository's tests. *)
Example test_url_extraction :
  extract_urls (str "Visit https://example.com for more info")
  = [str "https://example.com"].
Proof. vm_compute. reflexivity. Qed.

Example extract_emails_sample :
  extract_emails (str "mail john.doe@example.com, or a@b.co.uk; not x@y.z")
  = [str "john.doe@example.com"; str "a@b.co.uk"].
Proof. vm_compute. reflexivity. Qed.

(** ** The suspicious-word count *)

Section Suspicious.
Context {U : Unicode}.

Lemma suspicious_words_length : length suspicious_words = 49.
Proof. reflexivity. Qed.

Lemma length_filter_indicator {A} (f : A -> bool) (l : list A) :
  length (filter f l) = list_sum (map (fun x => if f x then 1 else 0) l).
Proof.
  induction l as [|x l IH]; simpl; [reflexivity|].
  destruct (f x); simpl; rewrite IH; reflexivity.
Qed.

Lemma length_filter_le {A} (f : A -> bool) (l : list A) :
  length (filter f l) <= length l.
Proof.
  induction l as [|x l IH]; simpl; [lia|].
  destruct (f x); simpl; lia.
Qed.

(** C10, as the code has it: the suspicious-word feature adds, for each of
    the 49 terms of the list, 1 if the lowercased term occurs in the
    lowercased text and 0 otherwise; so it is an integer between 0 and 49,
    however often a term occurs. *)
Theorem suspicious_feature_is_indicator_sum (t : text) :
  exists n : nat,
    nth 5 (extract_basic_features t) 0%Q = of_int n /\
    n <= 49 /\
    length suspicious_words = 49 /\
    (falsy t = false ->
     n = list_sum
           (map (fun word =>
                   if Py.contains (lower word) (lower t) then 1 else 0)
                suspicious_words)).
Proof.
  destruct t as [|c t].
  - exists 0. repeat split; [lia | discriminate].
  - exists (suspicious_count (c :: t)). repeat split.
    + unfold suspicious_count.
      rewrite <- suspicious_words_length. apply length_filter_le.
    + intros _. unfold suspicious_count. apply length_filter_indicator.
Qed.

End Suspicious.

(** C10 as stated fails: the list has 49 terms, not 48, and a text that
    names them all has a feature value of 49. *)
Lemma suspicious_feature_exceeds_48 :
  length suspicious_words <> 48 /\
  nth 5 (extract_basic_features every_term) 0%Q = of_int 49 /\
  ~ (49 <= 48).
Proof.
  split; [discriminate|]. split; [vm_compute; reflexivity | lia].
Qed.

(** A repeated term counts once. *)
Example suspicious_repeat_counts_once :
  nth 5 (extract_basic_features (str "free free FREE free")) 0%Q = of_int 1.
Proof. vm_compute. reflexivity. Qed.

(** ** Loading the bundle *)

(** C2 as stated fails: the three files of [mixed_files] disagree on the
    feature length, and loading them succeeds. *)
Lemma load_accepts_mixed_lengths :
  App.lengths_agree mixed_classifier mixed_extractor mixed_scaler = false /\
  App.load_model_components mixed_files App.init =
    ({| model := Some mixed_classifier;
        feature_extractor := Some mixed_extractor;
        scaler := Some mixed_scaler |}, true).
Proof. split; reflexivity. Qed.

(** C2, as the code has it: loading makes no feature-length check.  It
    returns [True] whenever the three files unpickle, whatever lengths the
    components have, and installs them as they were stored; it returns
    [False] exactly when one of the three loads raises. *)
Theorem load_checks_no_lengths :
  (forall m fe sc g,
     App.load_model_components
       {| phishing_model_pkl := Ok m;
          feature_extractor_pkl := Ok fe;
          scaler_pkl := Ok sc |} g =
     ({| model := Some m; feature_extractor := Some fe; scaler := Some sc |},
      true)) /\
  (forall files g,
     snd (App.load_model_components files g) = false <->
     (exists e, phishing_model_pkl files = Raise e) \/
     (exists e, feature_extractor_pkl files = Raise e) \/
     (exists e, scaler_pkl files = Raise e)).
Proof.
  split.
  - intros m fe sc g. reflexivity.
  - intros [pm pf ps] g. unfold App.load_model_components. simpl.
    destruct pm as [m|e1]; simpl.
    2:{ split; [intros _; left; eexists; reflexivity | reflexivity]. }
    destruct pf as [fe|e2]; simpl.
    2:{ split; [intros _; right; left; eexists; reflexivity | reflexivity]. }
    destruct ps as [sc|e3]; simpl.
    2:{ split; [intros _; right; right; eexists; reflexivity | reflexivity]. }
    split; [discriminate|].
    intros [[e H]|[[e H]|[e H]]]; discriminate.
Qed.

(** ** Sanitization and tokenization return when the libraries do *)

Lemma mapM_returns {A B} (f : A -> result B) (l : list A) :
  (forall x, exists y, f x = Ok y) ->
  exists ys, mapM f l = Ok ys /\ length ys = length l.
Proof.
  intros Hf. induction l as [|x l (ys & Hys & Hlen)]; simpl.
  - exists []. split; reflexivity.
  - destruct (Hf x) as (y & Hy). rewrite Hy, Hys. simpl.
    exists (y :: ys). split; [reflexivity | simpl; congruence].
Qed.

Section Preprocessing.
Context {U : Unicode} {L : TextLibs}.
Hypothesis HL : libs_return L.

Lemma tokenize_and_clean_returns (t : text) :
  exists ts, tokenize_and_clean t = Ok ts.
Proof.
  unfold tokenize_and_clean. destruct (falsy t); [eexists; reflexivity|].
  destruct HL as (_ & Htok & Hstem).
  destruct (Htok (lower t)) as (toks & Htoks). rewrite Htoks. simpl.
  destruct (mapM_returns stem (filter keep_token toks) Hstem) as (ys & Hys & _).
  rewrite Hys. simpl. eexists; reflexivity.
Qed.

Lemma preprocess_email_returns (t : text) :
  exists r, preprocess_email t = Ok r.
Proof.
  unfold preprocess_email, remove_html_tags.
  destruct (falsy t); [eexists; reflexivity|].
  destruct HL as (Hget & _).
  destruct (Hget t) as (x & Hx). rewrite Hx. simpl.
  destruct (tokenize_and_clean_returns
              (remove_special_chars (remove_emails (remove_urls x))))
    as (ts & Hts).
  rewrite Hts. simpl. eexists; reflexivity.
Qed.

End Preprocessing.

(** With the stand-in libraries.  Digits and punctuation only: nothing is
    left after sanitization. *)
Example preprocess_no_letters :
  preprocess_email (str "12345 !!! 67.89 ???") = Ok [].
Proof. vm_compute. reflexivity. Qed.

(** URL, address, punctuation, stop words and short words are removed. *)
Example preprocess_sample :
  preprocess_email (str "Visit https://example.com for the Prize, a@b.com!")
  = Ok (str "visit prize").
Proof. vm_compute. reflexivity. Qed.

(** ** The feature vector *)

Section Pipeline.
Context {U : Unicode} {L : TextLibs} {K : Sklearn}.

Lemma extract_all_of_tfidf (self : FeatureExtractor) (t : text) (e : exn) :
  extract_tfidf_features self t = Raise e ->
  extract_all_features self t = Raise e.
Proof. intros H. unfold extract_all_features. rewrite H. reflexivity. Qed.

(** C3, as the code has it: before [fit_tfidf], [extract_tfidf_features]
    and [extract_all_features] never return a vector.  The text is
    preprocessed first: where [preprocess_email] returns, the call raises
    [NotFittedError]; where it raises, that exception comes out. *)
Theorem transform_before_fit_never_returns (self : FeatureExtractor)
    (t : text) :
  fit_state (tfidf_vectorizer self) = None ->
  (forall v, extract_tfidf_features self t <> Ok v) /\
  (forall v, extract_all_features self t <> Ok v) /\
  (forall p, preprocess_email t = Ok p ->
     extract_tfidf_features self t = Raise NotFittedError /\
     extract_all_features self t = Raise NotFittedError) /\
  (forall e, preprocess_email t = Raise e ->
     extract_tfidf_features self t = Raise e /\
     extract_all_features self t = Raise e).
Proof.
  intros Hnone.
  assert (Hcase : extract_tfidf_features self t
                  = match preprocess_email t with
                    | Ok _ => Raise NotFittedError
                    | Raise e => Raise e
                    end).
  { unfold extract_tfidf_features, Tfidf.transform. rewrite Hnone.
    destruct (preprocess_email t); reflexivity. }
  split; [|split; [|split]].
  - intros v. rewrite Hcase. destruct (preprocess_email t); discriminate.
  - intros v. unfold extract_all_features. rewrite Hcase.
    destruct (preprocess_email t); discriminate.
  - intros p Hp. rewrite Hp in Hcase.
    split; [exact Hcase | apply extract_all_of_tfidf; exact Hcase].
  - intros e He. rewrite He in Hcase.
    split; [exact Hcase | apply extract_all_of_tfidf; exact Hcase].
Qed.

Lemma fit_tfidf_state (self self' : FeatureExtractor) (corpus : list text) :
  fit_tfidf self corpus = Ok self' ->
  exists f,
    fit_state (tfidf_vectorizer self') = Some f /\
    length (vocabulary_ f) <= max_features (tfidf_vectorizer self) /\
    max_features (tfidf_vectorizer self') = max_features (tfidf_vectorizer self).
Proof.
  unfold fit_tfidf. intros H.
  destruct (mapM preprocess_email corpus) as [docs|e]; simpl in H;
    [|discriminate].
  unfold Tfidf.fit in H.
  remember (firstn (max_features (tfidf_vectorizer self))
              (ranked_terms (ngram_range (tfidf_vectorizer self))
                 (stop_words_option (tfidf_vectorizer self)) docs)) as vocab
    eqn:Hvocab.
  destruct vocab as [|w vocab]; simpl in H; [discriminate|].
  injection H as <-. simpl. eexists. split; [reflexivity|]. simpl.
  split; [|reflexivity].
  change (S (length vocab)) with (length (w :: vocab)).
  rewrite Hvocab. apply firstn_le_length.
Qed.

(** C1, as the code has it: once the vectorizer is fit,
    [extract_all_features] returns, for every text on which
    [preprocess_email] returns, the basic statistics, then the advanced
    statistics, then the TF-IDF row of the text, and the length of the
    result is [8 + 5 + V] for every such text, where [V], the size of the
    fitted vocabulary, is at most 1000; on a text on which
    [preprocess_email] raises it raises that exception. *)
Theorem extract_all_features_layout (self self' : FeatureExtractor)
    (corpus : list text) (t : text) :
  max_features (tfidf_vectorizer self) = 1000 ->
  fit_tfidf self corpus = Ok self' ->
  vocabulary_size self' <= 1000 /\
  length (extract_basic_features t) = 8 /\
  length (extract_advanced_features t) = 5 /\
  (forall p, preprocess_email t = Ok p ->
     exists tfidf_features,
       extract_tfidf_features self' t = Ok tfidf_features /\
       length tfidf_features = vocabulary_size self' /\
       extract_all_features self' t =
         Ok (extract_basic_features t ++ extract_advanced_features t
             ++ tfidf_features) /\
       length (extract_basic_features t ++ extract_advanced_features t
               ++ tfidf_features) = 8 + 5 + vocabulary_size self') /\
  (forall e, preprocess_email t = Raise e ->
     extract_tfidf_features self' t = Raise e /\
     extract_all_features self' t = Raise e).
Proof.
  intros Hmax Hfit.
  destruct (fit_tfidf_state _ _ Hfit) as (f & Hf & Hle & _).
  unfold vocabulary_size. rewrite Hf. rewrite Hmax in Hle.
  split; [exact Hle|].
  split; [apply length_basic|].
  split; [apply length_advanced|].
  split.
  - intros p Hp.
    exists (map (tfidf_weight f p) (vocabulary_ f)).
    assert (Htf : extract_tfidf_features self' t
                  = Ok (map (tfidf_weight f p) (vocabulary_ f))).
    { unfold extract_tfidf_features. rewrite Hp. simpl.
      unfold Tfidf.transform. rewrite Hf. reflexivity. }
    split; [exact Htf|].
    split; [apply length_map|].
    split; [unfold extract_all_features; rewrite Htf; reflexivity|].
    rewrite !length_app, length_basic, length_advanced, length_map. lia.
  - intros e He.
    assert (Htf : extract_tfidf_features self' t = Raise e)
      by (unfold extract_tfidf_features; rewrite He; reflexivity).
    split; [exact Htf | apply extract_all_of_tfidf; exact Htf].
Qed.

End Pipeline.

Lemma transform_before_fit_never_returns_witness :
  fit_state (tfidf_vectorizer init) = None /\
  extract_all_features init (str "Thank you for your order")
  = Raise NotFittedError.
Proof.
  split; [reflexivity|].
  destruct (@transform_before_fit_never_returns ascii_db plain_libs
              word_sklearn init (str "Thank you for your order") eq_refl)
    as (_ & _ & Hok & _).
  exact (proj2 (Hok (str "thank order") eq_refl)).
Defined.

(** C3 as stated fails: on [<![x]] the parser raises during the
    preprocessing, before the vectorizer is asked, so the exception is
    not [NotFittedError]. *)
Lemma unfitted_transform_raises_parser_error :
  fit_state (tfidf_vectorizer init) = None /\
  @extract_tfidf_features ascii_db rejecting_parser_libs word_sklearn
    init rejected_markup = Raise (LibraryError "ParserRejectedMarkup") /\
  LibraryError "ParserRejectedMarkup" <> NotFittedError.
Proof. split; [reflexivity|]. split; [reflexivity | discriminate]. Qed.

Lemma sample_fitted_ok : fit_tfidf init sample_corpus = Ok sample_fitted.
Proof. vm_compute. reflexivity. Defined.

Lemma extract_all_features_layout_witness :
  max_features (tfidf_vectorizer init) = 1000 /\
  fit_tfidf init sample_corpus = Ok sample_fitted /\
  vocabulary_size sample_fitted <= 1000 /\
  exists tfidf_features,
    extract_all_features sample_fitted (str "URGENT: verify your account now")
    = Ok (extract_basic_features (str "URGENT: verify your account now")
          ++ extract_advanced_features (str "URGENT: verify your account now")
          ++ tfidf_features).
Proof.
  split; [reflexivity|]. split; [exact sample_fitted_ok|].
  destruct (@extract_all_features_layout ascii_db plain_libs word_sklearn
              init sample_fitted sample_corpus
              (str "URGENT: verify your account now")
              eq_refl sample_fitted_ok) as (HV & _ & _ & Hok & _).
  split; [exact HV|].
  destruct (Hok (str "urgent verify account now") eq_refl)
    as (v & _ & _ & Hall & _).
  exists v. exact Hall.
Defined.

(** C1 as stated fails: the extractor fit on the sample corpus returns no
    vector for [<![x]]; the parser's exception comes out instead. *)
Lemma fitted_extractor_raises_on_rejected_markup :
  @fit_tfidf ascii_db rejecting_parser_libs word_sklearn init sample_corpus
    = Ok sample_fitted /\
  @extract_all_features ascii_db rejecting_parser_libs word_sklearn
    sample_fitted rejected_markup
    = Raise (LibraryError "ParserRejectedMarkup").
Proof. split; vm_compute; reflexivity. Qed.

(** The sample extractor has six vocabulary terms, so 19 columns. *)
Example sample_vector_length :
  option_map (@length Q)
    (match extract_all_features sample_fitted
             (str "URGENT: verify your account now") with
     | Ok v => Some v
     | Raise _ => None
     end) = Some 19.
Proof. vm_compute. reflexivity. Qed.

(** ** The matcher does not depend on its fuel *)

Section MatcherFacts.
Context {U : Unicode} {A : Type}.

Lemma star_loop_ext (body : Re.matcher A) :
  (forall prev s k1 k2,
     (forall p t, k1 p t = k2 p t) -> body prev s k1 = body prev s k2) ->
  forall fuel prev s k1 k2,
    (forall p t, k1 p t = k2 p t) ->
    Re.star_loop body k1 fuel prev s = Re.star_loop body k2 fuel prev s.
Proof.
  intros Hbody. induction fuel as [|fuel IH]; intros prev s k1 k2 Hk; simpl.
  - apply Hk.
  - rewrite (Hbody prev s _
               (fun prev' s' =>
                  if Nat.ltb (length s') (length s)
                  then Re.star_loop body k2 fuel prev' s' else None)).
    + rewrite Hk. reflexivity.
    + intros p t. destruct (Nat.ltb (length t) (length s));
        [apply IH; exact Hk | reflexivity].
Qed.

(** The matcher uses its continuation only through its results. *)
Lemma m_ext (r : Re.regex) :
  forall prev s (k1 k2 : option char -> text -> option A),
    (forall p t, k1 p t = k2 p t) -> Re.m r prev s k1 = Re.m r prev s k2.
Proof.
  induction r as [a|neg items|r1 IH1 r2 IH2|r1 IH1 r2 IH2|r1 IH1|r1 IH1|];
    intros prev s k1 k2 Hk; simpl.
  - destruct s as [|c s]; [reflexivity|]. rewrite Hk. reflexivity.
  - destruct s as [|c s]; [reflexivity|]. rewrite Hk. reflexivity.
  - apply IH1. intros p t. apply IH2. exact Hk.
  - rewrite (IH1 prev s k1 k2 Hk), (IH2 prev s k1 k2 Hk). reflexivity.
  - rewrite (IH1 prev s k1 k2 Hk), Hk. reflexivity.
  - apply star_loop_ext; assumption.
  - rewrite Hk. reflexivity.
Qed.

(** Every result of the matcher comes from its continuation. *)
Lemma m_none (r : Re.regex) :
  forall prev s (k : option char -> text -> option A),
    (forall p t, k p t = None) -> Re.m r prev s k = None.
Proof.
  induction r as [a|neg items|r1 IH1 r2 IH2|r1 IH1 r2 IH2|r1 IH1|r1 IH1|];
    intros prev s k Hk; simpl.
  - destruct s as [|c s]; [reflexivity|].
    destruct (char_eqb c (chr a)); [apply Hk | reflexivity].
  - destruct s as [|c s]; [reflexivity|].
    destruct (Re.set_has neg items c); [apply Hk | reflexivity].
  - apply IH1. intros p t. apply IH2. exact Hk.
  - rewrite (IH1 prev s k Hk). apply IH2. exact Hk.
  - rewrite (IH1 prev s k Hk). apply Hk.
  - generalize (length s) as fuel. intros fuel. revert prev s.
    induction fuel as [|fuel IHf]; intros prev s; simpl; [apply Hk|].
    rewrite IH1; [apply Hk|].
    intros p t. destruct (Nat.ltb (length t) (length s));
      [apply IHf | reflexivity].
  - destruct (xorb _ _); [apply Hk | reflexivity].
Qed.

(** The length of the input is fuel enough for a repetition. *)
Lemma star_loop_fuel (r : Re.regex) (k : option char -> text -> option A) :
  forall f1 f2 prev s,
    length s <= f1 -> length s <= f2 ->
    Re.star_loop (Re.m r) k f1 prev s = Re.star_loop (Re.m r) k f2 prev s.
Proof.
  assert (Hend : forall f prev,
            Re.star_loop (Re.m r) k (S f) prev [] = k prev []).
  { intros f prev. simpl. rewrite m_none; reflexivity. }
  induction f1 as [|f1 IH]; intros [|f2] prev s H1 H2.
  - reflexivity.
  - destruct s; [|simpl in H1; lia]. rewrite Hend. reflexivity.
  - destruct s; [|simpl in H2; lia]. rewrite Hend. reflexivity.
  - simpl.
    rewrite (m_ext r prev s _
               (fun prev' s' =>
                  if Nat.ltb (length s') (length s)
                  then Re.star_loop (Re.m r) k f2 prev' s' else None));
      [reflexivity|].
    intros p t. destruct (Nat.ltb (length t) (length s)) eqn:Hlt;
      [|reflexivity].
    apply Nat.ltb_lt in Hlt. apply IH; lia.
Qed.

End MatcherFacts.

Section ScanFacts.
Context {U : Unicode}.

(** The length of the input is fuel enough for a scan. *)
Lemma scan_fuel (r : Re.regex) :
  forall f1 f2 prev s,
    length s <= f1 -> length s <= f2 ->
    Re.scan f1 r prev s = Re.scan f2 r prev s.
Proof.
  induction f1 as [|f1 IH]; intros [|f2] prev [|c s] H1 H2;
    simpl in H1, H2; try lia; try reflexivity.
  cbn [Re.scan].
  destruct (Re.match_at r prev (c :: s)) as [[prev' rest]|].
  - destruct (Nat.ltb (length rest) (length (c :: s))) eqn:Hlt.
    + apply Nat.ltb_lt in Hlt. simpl in Hlt.
      rewrite (IH f2 prev' rest) by lia. reflexivity.
    + rewrite (IH f2 (Some c) s) by lia. reflexivity.
  - rewrite (IH f2 (Some c) s) by lia. reflexivity.
Qed.

(** The matcher hands its continuation a suffix of the input. *)
Lemma m_suffix {A : Type} (r : Re.regex) :
  forall prev s (k : option char -> text -> option A) res,
    Re.m r prev s k = Some res ->
    exists p' s' pre, k p' s' = Some res /\ s = pre ++ s'.
Proof.
  induction r as [a|neg items|r1 IH1 r2 IH2|r1 IH1 r2 IH2|r1 IH1|r1 IH1|];
    intros prev s k res H; simpl in H.
  - destruct s as [|c s]; [discriminate|].
    destruct (char_eqb c (chr a)); [|discriminate].
    exists (Some c), s, [c]. split; [exact H | reflexivity].
  - destruct s as [|c s]; [discriminate|].
    destruct (Re.set_has neg items c); [|discriminate].
    exists (Some c), s, [c]. split; [exact H | reflexivity].
  - apply IH1 in H. destruct H as (p1 & s1 & pre1 & H & ->).
    apply IH2 in H. destruct H as (p2 & s2 & pre2 & H & ->).
    exists p2, s2, (pre1 ++ pre2). split; [exact H | apply app_assoc].
  - destruct (Re.m r1 prev s k) eqn:H1.
    + injection H as ->. apply IH1 in H1. exact H1.
    + apply IH2 in H. exact H.
  - destruct (Re.m r1 prev s k) eqn:H1.
    + injection H as ->. apply IH1 in H1. exact H1.
    + exists prev, s, []. split; [exact H | reflexivity].
  - revert H. generalize (length s) as fuel. intros fuel. revert prev s.
    induction fuel as [|fuel IHf]; intros prev s H; simpl in H.
    + exists prev, s, []. split; [exact H | reflexivity].
    + match type of H with
      | match ?b with _ => _ end = _ => destruct b eqn:Hb
      end.
      * injection H as ->. apply IH1 in Hb.
        destruct Hb as (p1 & s1 & pre1 & Hb & ->).
        destruct (Nat.ltb (length s1) (length (pre1 ++ s1)));
          [|discriminate].
        apply IHf in Hb. destruct Hb as (p2 & s2 & pre2 & Hb & ->).
        exists p2, s2, (pre1 ++ pre2). split; [exact Hb | apply app_assoc].
      * exists prev, s, []. split; [exact H | reflexivity].
  - destruct (xorb _ _); [|discriminate].
    exists prev, s, []. split; [exact H | reflexivity].
Qed.

Lemma match_at_suffix (r : Re.regex) (prev prev' : option char)
    (s rest : text) :
  Re.match_at r prev s = Some (prev', rest) ->
  firstn (length s - length rest) s ++ rest = s.
Proof.
  intros H. apply m_suffix in H.
  destruct H as (p' & s' & pre & H & ->). injection H as _ ->.
  rewrite length_app, Nat.add_sub.
  rewrite firstn_app, firstn_all, Nat.sub_diag. simpl.
  rewrite app_nil_r. reflexivity.
Qed.

Lemma unscan_gap_cons (c : char) (res : list (text * text) * text) :
  Re.unscan (Re.gap_cons c res) = c :: Re.unscan res.
Proof. destruct res as [[|[g mt] ps] tl]; reflexivity. Qed.

(** A scan loses nothing: its gaps and matches, in order, are the text. *)
Lemma scan_covers (r : Re.regex) :
  forall fuel prev s,
    length s <= fuel -> Re.unscan (Re.scan fuel r prev s) = s.
Proof.
  induction fuel as [|fuel IH]; intros prev [|c s] Hlen;
    simpl in Hlen; try lia; try reflexivity.
  cbn [Re.scan].
  destruct (Re.match_at r prev (c :: s)) as [[prev' rest]|] eqn:Hm.
  - destruct (Nat.ltb (length rest) (length (c :: s))) eqn:Hlt.
    + apply Nat.ltb_lt in Hlt. simpl in Hlt.
      specialize (IH prev' rest).
      destruct (Re.scan fuel r prev' rest) as [ps tl].
      unfold Re.unscan in *. cbn [fst snd map concat app] in *.
      rewrite <- app_assoc, IH by lia.
      apply (match_at_suffix _ _ _ Hm).
    + rewrite unscan_gap_cons, IH by lia. reflexivity.
  - rewrite unscan_gap_cons, IH by lia. reflexivity.
Qed.

Lemma finditer_fuel (r : Re.regex) (s : text) (extra : nat) :
  Re.scan (length s + extra) r None s = Re.finditer r s.
Proof. unfold Re.finditer. apply scan_fuel; lia. Qed.

End ScanFacts.

(** ** Splitting on runs of a character class *)

Section SplitOnRuns.
Context {U : Unicode}.
Variables (negated : bool) (items : list Re.item).

Local Abbreviation q := (Re.set_has negated items).
Local Abbreviation cls := (Re.Set_ negated items).
Local Abbreviation top := (fun prev' s' => Some (prev', s')).

Lemma length_drop_run (p : char -> bool) (s : text) :
  length (Spec.drop_run p s) <= length s.
Proof.
  induction s as [|c s IH]; simpl; [lia|].
  destruct (p c); simpl; lia.
Qed.

Lemma count_runs_inside (p : char -> bool) (s : text) :
  Spec.count_runs p true s = Spec.count_runs p false (Spec.drop_run p s).
Proof.
  induction s as [|c s IH]; simpl; [reflexivity|].
  destruct (p c) eqn:Hc; simpl; [exact IH|].
  rewrite Hc. reflexivity.
Qed.

Lemma count_runs_ext (p p' : char -> bool) (b : bool) (s : text) :
  (forall c, p c = p' c) ->
  Spec.count_runs p b s = Spec.count_runs p' b s.
Proof.
  intros Hpp. revert b. induction s as [|c s IH]; intros b; simpl;
    [reflexivity|].
  rewrite <- Hpp. destruct (p c); rewrite IH; reflexivity.
Qed.

(** With enough fuel the greedy loop over a class takes the whole run. *)
Lemma star_class_takes_run (fuel : nat) :
  forall prev s, length s <= fuel ->
  exists prev',
    Re.star_loop (Re.m cls) top fuel prev s = Some (prev', Spec.drop_run q s).
Proof.
  induction fuel as [|fuel IH]; intros prev s Hlen.
  - destruct s; [|simpl in Hlen; lia]. exists prev. reflexivity.
  - destruct s as [|c s]; simpl.
    + exists prev. reflexivity.
    + destruct (q c) eqn:Hc.
      * assert (Hlt : Nat.ltb (length s) (S (length s)) = true)
          by (apply Nat.ltb_lt; lia).
        rewrite Hlt.
        destruct (IH (Some c) s) as (prev' & Hloop);
          [simpl in Hlen; lia|].
        simpl in Hloop. rewrite Hloop. exists prev'. reflexivity.
      * exists prev. reflexivity.
Qed.

Lemma match_class_run_hit (prev : option char) (c : char) (s : text) :
  q c = true ->
  exists prev',
    Re.match_at (Re.Plus cls) prev (c :: s) = Some (prev', Spec.drop_run q s).
Proof.
  intros Hc. unfold Re.match_at, Re.Plus. cbn [Re.m]. rewrite Hc.
  apply star_class_takes_run. lia.
Qed.

Lemma match_class_run_miss (prev : option char) (c : char) (s : text) :
  q c = false -> Re.match_at (Re.Plus cls) prev (c :: s) = None.
Proof.
  intros Hc. unfold Re.match_at, Re.Plus. cbn [Re.m]. rewrite Hc.
  reflexivity.
Qed.

Lemma length_gap_cons (c : char) (res : list (text * text) * text) :
  length (fst (Re.gap_cons c res)) = length (fst res).
Proof. destruct res as [[|[g mt] ps] tl]; reflexivity. Qed.

(** With enough fuel the scan finds one match per run. *)
Lemma scan_counts_runs (fuel : nat) :
  forall prev s, length s <= fuel ->
  length (fst (Re.scan fuel (Re.Plus cls) prev s)) = Spec.count_runs q false s.
Proof.
  induction fuel as [|fuel IH]; intros prev s Hlen.
  - destruct s; [reflexivity | simpl in Hlen; lia].
  - destruct s as [|c s]; [reflexivity|].
    cbn [Re.scan Spec.count_runs].
    destruct (q c) eqn:Hc.
    + destruct (@match_class_run_hit prev c s Hc) as (prev' & Hm).
      rewrite Hm.
      pose proof (length_drop_run q s) as Hdrop.
      assert (Hlt : Nat.ltb (length (Spec.drop_run q s)) (length (c :: s))
                    = true) by (apply Nat.ltb_lt; simpl; lia).
      rewrite Hlt.
      specialize (IH prev' (Spec.drop_run q s)).
      destruct (Re.scan fuel (Re.Plus cls) prev' (Spec.drop_run q s))
        as [ps tl].
      simpl. simpl in IH. rewrite IH; [|simpl in Hlen; lia].
      rewrite count_runs_inside. reflexivity.
    + rewrite (@match_class_run_miss prev c s Hc).
      rewrite length_gap_cons. apply IH. simpl in Hlen. lia.
Qed.

(** [re.split] on a class repeated gives one piece more than the text has
    runs of the class. *)
Lemma split_class_run_length (s : text) :
  length (Re.split (Re.Plus cls) s) = S (Spec.count_runs q false s).
Proof.
  unfold Re.split, Re.finditer.
  rewrite length_app, length_map. simpl.
  rewrite scan_counts_runs by lia. lia.
Qed.

End SplitOnRuns.

(** ** The sentence features *)

Section Sentences.
Context {U : Unicode}.

Lemma sentence_end_class (c : char) :
  Re.set_has false [Re.Chr "."; Re.Chr "!"; Re.Chr "?"] c
  = Spec.is_sentence_end c.
Proof.
  unfold Re.set_has, Spec.is_sentence_end. simpl.
  rewrite orb_false_r, orb_assoc. reflexivity.
Qed.

Lemma length_sentence_split (t : text) :
  length (Re.split sentence_end t) = Spec.sentence_pieces t.
Proof.
  unfold sentence_end, Spec.sentence_pieces.
  rewrite split_class_run_length. f_equal.
  apply count_runs_ext. exact sentence_end_class.
Qed.

Lemma length_split_from (cur s : text) :
  length (Py.split_from cur s)
  = (if falsy cur then 0 else 1)
    + Spec.count_runs (fun c => negb (isspace c)) (negb (falsy cur)) s.
Proof.
  revert cur. induction s as [|c s IH]; intros cur; simpl.
  - destruct cur; reflexivity.
  - destruct (isspace c); simpl.
    + destruct cur; simpl; rewrite IH; reflexivity.
    + rewrite IH. simpl. destruct cur; simpl; lia.
Qed.

Lemma length_words (t : text) : length (Py.split t) = Spec.word_count t.
Proof. unfold Py.split. rewrite length_split_from. reflexivity. Qed.

(** C8: for every non-empty text, the sentence count is the number of
    pieces that splitting on runs of [.], [!], [?] gives, at least 1, and
    the average words per sentence is the number of whitespace-separated
    words divided by [max(sentence count, 1)]. *)
Theorem sentence_features (t : text) :
  falsy t = false ->
  nth 1 (extract_advanced_features t) 0%Q
    = of_int (Nat.max (Spec.sentence_pieces t) 1) /\
  nth 2 (extract_advanced_features t) 0%Q
    = (of_int (Spec.word_count t)
       / of_int (Nat.max (Spec.sentence_pieces t) 1))%Q /\
  length (Re.split sentence_end t) = Spec.sentence_pieces t /\
  length (Py.split t) = Spec.word_count t /\
  1 <= Spec.sentence_pieces t.
Proof.
  intros Hne. unfold extract_advanced_features. rewrite Hne.
  cbn [nth]. rewrite length_sentence_split, length_words.
  assert (Hmax : Nat.max (Spec.sentence_pieces t) 1 = Spec.sentence_pieces t)
    by (unfold Spec.sentence_pieces; lia).
  rewrite Hmax.
  repeat split. unfold Spec.sentence_pieces. lia.
Qed.

End Sentences.

Lemma sentence_features_witness :
  falsy (str "Hi. Bye!? ok...") = false /\
  nth 1 (extract_advanced_features (str "Hi. Bye!? ok...")) 0%Q = of_int 4 /\
  nth 2 (extract_advanced_features (str "Hi. Bye!? ok...")) 0%Q
    = (of_int 3 / of_int 4)%Q.
Proof.
  split; [reflexivity|].
  destruct (@sentence_features ascii_db (str "Hi. Bye!? ok...") eq_refl)
    as (H1 & H2 & _).
  split; [exact H1 | exact H2].
Defined.

(** ** How the statistical features relate *)

Section FeatureFacts.
Context {U : Unicode}.

Lemma of_int_nonneg (n : nat) : (0 <= of_int n)%Q.
Proof.
  unfold of_int. change 0%Q with (inject_Z 0). rewrite <- Zle_Qle. lia.
Qed.

Lemma of_int_pos (n : nat) : 0 < n -> (0 < of_int n)%Q.
Proof.
  intros H. unfold of_int. change 0%Q with (inject_Z 0).
  rewrite <- Zlt_Qlt. lia.
Qed.

Lemma of_int_le (a b : nat) : a <= b -> (of_int a <= of_int b)%Q.
Proof. intros H. unfold of_int. rewrite <- Zle_Qle. lia. Qed.

Lemma of_int_div_nonneg (a b : nat) : (0 <= of_int a / of_int b)%Q.
Proof.
  destruct b as [|b].
  - unfold Qdiv, Qinv. simpl. rewrite Qmult_0_r. apply Qle_refl.
  - apply Qle_shift_div_l; [apply of_int_pos; lia|].
    rewrite Qmult_0_l. apply of_int_nonneg.
Qed.

Lemma of_int_div_le_1 (a b : nat) :
  0 < b -> a <= b -> (of_int a / of_int b <= 1)%Q.
Proof.
  intros Hb Hab. apply Qle_shift_div_r; [apply of_int_pos; exact Hb|].
  rewrite Qmult_1_l. apply of_int_le. exact Hab.
Qed.

Lemma of_int_div_mult (a b : nat) :
  0 < b -> (of_int a / of_int b * of_int b == of_int a)%Q.
Proof.
  intros Hb. rewrite Qmult_comm. apply Qmult_div_r.
  intros H0. pose proof (of_int_pos Hb) as Hpos. rewrite H0 in Hpos.
  exact (Qlt_irrefl _ Hpos).
Qed.

Lemma of_int_add (a b : nat) : (of_int (a + b) == of_int a + of_int b)%Q.
Proof.
  unfold of_int. rewrite Nat2Z.inj_add, inject_Z_plus. reflexivity.
Qed.

Lemma of_int_mul (a b : nat) : (of_int (a * b) == of_int a * of_int b)%Q.
Proof.
  unfold of_int. rewrite Nat2Z.inj_mul, inject_Z_mult. reflexivity.
Qed.

Lemma of_int_eq (a b : nat) : (of_int a == of_int b)%Q <-> a = b.
Proof.
  unfold of_int. rewrite inject_Z_injective. apply Nat2Z.inj_iff.
Qed.

Lemma of_int_div_eq_0 (a b : nat) :
  0 < b -> (of_int a / of_int b == 0)%Q <-> a = 0.
Proof.
  intros Hb. rewrite <- (of_int_eq a 0). split; intros H.
  - transitivity (of_int a / of_int b * of_int b)%Q;
      [symmetry; apply of_int_div_mult; exact Hb|].
    rewrite H. apply Qmult_0_l.
  - unfold Qdiv. rewrite H. apply Qmult_0_l.
Qed.

Lemma of_int_div_eq_1 (a b : nat) :
  0 < b -> (of_int a / of_int b == 1)%Q <-> a = b.
Proof.
  intros Hb. rewrite <- (of_int_eq a b). split; intros H.
  - transitivity (of_int a / of_int b * of_int b)%Q;
      [symmetry; apply of_int_div_mult; exact Hb|].
    rewrite H. apply Qmult_1_l.
  - rewrite H. unfold Qdiv. apply Qmult_inv_r.
    intros H0. pose proof (of_int_pos Hb) as Hpos. rewrite H0 in Hpos.
    exact (Qlt_irrefl _ Hpos).
Qed.

Lemma filter_all {A} (f : A -> bool) (l : list A) :
  length (filter f l) = length l <-> Forall (fun x => f x = true) l.
Proof.
  induction l as [|x l IH]; simpl.
  - split; [constructor | reflexivity].
  - pose proof (length_filter_le f l) as Hle.
    destruct (f x) eqn:Hx; simpl.
    + split.
      * intros H. constructor; [exact Hx | apply IH; lia].
      * intros H. inversion H; subst. f_equal. apply IH. assumption.
    + split; [lia|]. intros H. inversion H; subst. congruence.
Qed.

(** X8: The uppercase ratio is a proportion: it lies between 0 and 1, it is
    0 exactly when the capital count of the advanced features is 0, and it
    is 1 exactly when the text is not empty and every character of it is
    uppercase. *)
Theorem uppercase_ratio_is_proportion (t : text) :
  (0 <= nth 6 (extract_basic_features t) 0)%Q /\
  (nth 6 (extract_basic_features t) 0 <= 1)%Q /\
  ((nth 6 (extract_basic_features t) 0 == 0)%Q
   <-> (nth 4 (extract_advanced_features t) 0 == 0)%Q) /\
  ((nth 6 (extract_basic_features t) 0 == 1)%Q
   <-> falsy t = false /\ Forall (fun c => isupper c = true) t).
Proof.
  destruct t as [|c t].
  - simpl. split; [discriminate|]. split; [discriminate|].
    split; [split; reflexivity|].
    split; [discriminate | intros (H & _); discriminate].
  - unfold extract_basic_features, extract_advanced_features.
    cbn [falsy nth].
    assert (Hmax : Nat.max (length (c :: t)) 1 = length (c :: t))
      by (simpl; lia).
    rewrite Hmax.
    assert (Hpos : 0 < length (c :: t)) by (simpl; lia).
    split; [apply of_int_div_nonneg|].
    split; [apply of_int_div_le_1; [exact Hpos | apply length_filter_le]|].
    split.
    + rewrite (of_int_div_eq_0 _ Hpos).
      rewrite (of_int_eq (Py.count_upper (c :: t)) 0). reflexivity.
    + rewrite (of_int_div_eq_1 _ Hpos). unfold Py.count_upper.
      rewrite filter_all. split; [intros H; split; [reflexivity | exact H]|].
      intros (_ & H). exact H.
Qed.

(** X9: Every statistical feature is non-negative. *)
Theorem statistical_features_nonneg (t : text) :
  Forall (fun x => (0 <= x)%Q)
         (extract_basic_features t ++ extract_advanced_features t).
Proof.
  apply Forall_app. split.
  - unfold extract_basic_features. destruct (falsy t).
    + repeat constructor; discriminate.
    + repeat apply Forall_cons; try apply Forall_nil;
        first [apply of_int_nonneg | apply of_int_div_nonneg].
  - unfold extract_advanced_features. destruct (falsy t).
    + repeat constructor; discriminate.
    + repeat apply Forall_cons; try apply Forall_nil;
        try apply of_int_nonneg; try apply of_int_div_nonneg.
      destruct (Py.split t); [discriminate | apply of_int_div_nonneg].
Qed.

End FeatureFacts.

Section WordFacts.
Context {U : Unicode}.

Lemma sum_lengths_split_from (cur s : text) :
  list_sum (map (@length char) (Py.split_from cur s))
  = length cur + length (filter (fun c => negb (isspace c)) s).
Proof.
  revert cur. induction s as [|c s IH]; intros cur; simpl.
  - destruct cur; simpl; [reflexivity|].
    rewrite length_app, length_rev. simpl. lia.
  - destruct (isspace c); simpl.
    + destruct cur; simpl; rewrite IH; simpl; [reflexivity|].
      rewrite length_app, length_rev. simpl. lia.
    + rewrite IH. simpl. lia.
Qed.

Lemma split_from_words_nonempty (cur s : text) :
  Forall (fun w => 1 <= length w) (Py.split_from cur s).
Proof.
  revert cur. induction s as [|c s IH]; intros cur; simpl.
  - destruct cur; constructor; [|constructor].
    simpl. rewrite length_app. simpl. lia.
  - destruct (isspace c); [|apply IH].
    destruct cur; [apply IH|]. constructor; [|apply IH].
    simpl. rewrite length_app. simpl. lia.
Qed.

Lemma length_le_sum_lengths (l : list text) :
  Forall (fun w => 1 <= length w) l ->
  length l <= list_sum (map (@length char) l).
Proof.
  induction 1 as [|w l Hw _ IH]; simpl; lia.
Qed.

Lemma sum_lengths_between (lo hi : nat) (l : list text) :
  Forall (fun w => lo <= length w /\ length w <= hi) l ->
  lo * length l <= list_sum (map (@length char) l) /\
  list_sum (map (@length char) l) <= hi * length l.
Proof. induction 1 as [|w l Hw _ IH]; simpl; lia. Qed.

(** X10: The average word length is 0 when the text has no word; otherwise
    it is at least 1 and at most the number of characters that are not
    whitespace, and it lies between the lengths of the shortest and of the
    longest word. *)
Theorem avg_word_length_bounds (t : text) :
  let avg := nth 0 (extract_advanced_features t) 0%Q in
  (Py.split t = [] -> (avg == 0)%Q) /\
  (Py.split t <> [] ->
     (1 <= avg)%Q /\
     (avg <= of_int (length (filter (fun c => negb (isspace c)) t)))%Q /\
     forall lo hi,
       Forall (fun w => lo <= length w /\ length w <= hi) (Py.split t) ->
       (of_int lo <= avg)%Q /\ (avg <= of_int hi)%Q).
Proof.
  cbv zeta.
  pose proof (sum_lengths_split_from [] t) as Hsum. fold (Py.split t) in Hsum.
  pose proof (split_from_words_nonempty [] t) as Hne.
  fold (Py.split t) in Hne. apply length_le_sum_lengths in Hne.
  simpl in Hsum.
  destruct t as [|c t].
  { split; [reflexivity|]. intros H. exfalso. apply H. reflexivity. }
  unfold extract_advanced_features. cbn [falsy nth]. rewrite <- Hsum.
  destruct (Py.split (c :: t)) as [|w ws] eqn:Hw.
  { split; [reflexivity|]. intros H. exfalso. apply H. reflexivity. }
  split; [discriminate|]. intros _.
  unfold mean. rewrite length_map.
  set (l := w :: ws) in *.
  assert (Hn : 0 < length l) by (simpl; lia).
  split; [|split].
  - apply Qle_shift_div_l; [apply of_int_pos; exact Hn|].
    rewrite Qmult_1_l. apply of_int_le. exact Hne.
  - apply Qle_shift_div_r; [apply of_int_pos; exact Hn|].
    rewrite <- of_int_mul. apply of_int_le.
    pose proof (Nat.mul_le_mono_l 1 (length l)
                  (list_sum (map (@length char) l)) Hn) as Hmul.
    rewrite Nat.mul_1_r in Hmul. exact Hmul.
  - intros lo hi Hall. apply sum_lengths_between in Hall.
    destruct Hall as (Hlo & Hhi). split.
    + apply Qle_shift_div_l; [apply of_int_pos; exact Hn|].
      rewrite <- of_int_mul. apply of_int_le. exact Hlo.
    + apply Qle_shift_div_r; [apply of_int_pos; exact Hn|].
      rewrite <- of_int_mul. apply of_int_le. exact Hhi.
Qed.

End WordFacts.

Section SentenceFacts.
Context {U : Unicode}.

Lemma count_runs_le_filter (p : char -> bool) (b : bool) (s : text) :
  Spec.count_runs p b s <= length (filter p s).
Proof.
  revert b. induction s as [|c s IH]; intros b; simpl; [lia|].
  destruct (p c); simpl.
  - specialize (IH true). destruct b; lia.
  - apply IH.
Qed.

Lemma count_runs_none (p : char -> bool) (s : text) :
  Spec.count_runs p false s = 0 <-> (forall c, In c s -> p c = false).
Proof.
  induction s as [|c s IH]; simpl.
  - split; [intros _ c [] | reflexivity].
  - destruct (p c) eqn:Hc.
    + split; [discriminate|]. intros H. specialize (H c (or_introl eq_refl)).
      congruence.
    + rewrite IH. split.
      * intros H x [<-|Hx]; [exact Hc | apply H; exact Hx].
      * intros H x Hx. apply H. right. exact Hx.
Qed.

(** X11: For a non-empty text the sentence count lies between 1 and one more
    than the number of [.], [!] and [?] characters, and it is 1 exactly
    when the text has none of them. *)
Theorem sentence_count_bounds (t : text) :
  falsy t = false ->
  exists n : nat,
    nth 1 (extract_advanced_features t) 0%Q = of_int n /\
    1 <= n /\
    n <= 1 + length (filter Spec.is_sentence_end t) /\
    (n = 1 <-> forall c, In c t -> Spec.is_sentence_end c = false).
Proof.
  intros Hne. exists (Spec.sentence_pieces t).
  split.
  { unfold extract_advanced_features. rewrite Hne. cbn [nth].
    rewrite length_sentence_split. reflexivity. }
  unfold Spec.sentence_pieces. split; [lia|]. split.
  - pose proof (count_runs_le_filter Spec.is_sentence_end false t). lia.
  - rewrite <- count_runs_none. lia.
Qed.

End SentenceFacts.

Lemma sentence_count_bounds_witness :
  falsy (str "no punctuation here") = false /\
  exists n : nat,
    nth 1 (extract_advanced_features (str "no punctuation here")) 0%Q
    = of_int n /\ 1 <= n.
Proof.
  split; [reflexivity|].
  destruct (@sentence_count_bounds ascii_db (str "no punctuation here")
              eq_refl) as (n & Hn & Hge & _).
  exists n. split; assumption.
Defined.

(** ** Removing special characters *)

Section SingleClass.
Context {U : Unicode}.
Variables (negated : bool) (items : list Re.item).

Local Abbreviation q := (Re.set_has negated items).
Local Abbreviation cls := (Re.Set_ negated items).

Lemma sub_gap_cons (c : char) (res : list (text * text) * text) :
  concat (map fst (fst (Re.gap_cons c res))) ++ snd (Re.gap_cons c res)
  = c :: concat (map fst (fst res)) ++ snd res.
Proof. destruct res as [[|[g mt] ps] tl]; reflexivity. Qed.

(** Deleting the matches of a one-character class keeps the characters
    outside the class. *)
Lemma scan_class_deletes (fuel : nat) :
  forall prev s, length s <= fuel ->
  concat (map fst (fst (Re.scan fuel cls prev s)))
    ++ snd (Re.scan fuel cls prev s)
  = filter (fun c => negb (q c)) s.
Proof.
  induction fuel as [|fuel IH]; intros prev [|c s] Hlen;
    simpl in Hlen; try lia; try reflexivity.
  cbn [Re.scan Re.match_at Re.m filter].
  destruct (q c) eqn:Hc; cbn [negb].
  - assert (Hlt : Nat.ltb (length s) (length (c :: s)) = true)
      by (apply Nat.ltb_lt; simpl; lia).
    rewrite Hlt. specialize (IH (Some c) s).
    destruct (Re.scan fuel cls (Some c) s) as [ps tl].
    simpl in *. apply IH. lia.
  - rewrite sub_gap_cons. f_equal. apply IH. lia.
Qed.

Lemma sub_empty_class (s : text) :
  Re.sub_empty cls s = filter (fun c => negb (q c)) s.
Proof. unfold Re.sub_empty, Re.finditer. apply scan_class_deletes. lia. Qed.

End SingleClass.

Section SpecialChars.
Context {U : Unicode}.

Lemma filter_idempotent {A} (f : A -> bool) (l : list A) :
  filter f (filter f l) = filter f l.
Proof.
  induction l as [|x l IH]; simpl; [reflexivity|].
  destruct (f x) eqn:Hx; simpl; [rewrite Hx, IH|]; auto.
Qed.

(** X1: [remove_special_chars] keeps exactly the ASCII letters and the
    whitespace characters of its input, in order; applying it twice
    changes nothing more. *)
Theorem remove_special_chars_keeps_letters (t : text) :
  remove_special_chars t
  = filter (fun c => Chars.is_ascii_letter c || isspace c) t /\
  remove_special_chars (remove_special_chars t) = remove_special_chars t.
Proof.
  assert (H : forall s, remove_special_chars s
              = filter (fun c => Chars.is_ascii_letter c || isspace c) s).
  { intros s. unfold remove_special_chars, special_pattern.
    rewrite sub_empty_class. apply filter_ext. intros c.
    unfold Re.set_has, Chars.is_ascii_letter. cbn [existsb Re.item_has].
    change (chr "a") with 97%N. change (chr "z") with 122%N.
    change (chr "A") with 65%N. change (chr "Z") with 90%N.
    destruct (N.leb 97 c && N.leb c 122), (N.leb 65 c && N.leb c 90),
      (isspace c); reflexivity. }
  split; [apply H|]. rewrite !H. apply filter_idempotent.
Qed.

End SpecialChars.

(** ** Feature names *)

Section FeatureNames.
Context {U : Unicode} {L : TextLibs} {K : Sklearn}.

Lemma chr_inj (a b : ascii) : chr a = chr b -> a = b.
Proof.
  unfold chr. intros H.
  rewrite <- (ascii_N_embedding a), <- (ascii_N_embedding b), H.
  reflexivity.
Qed.

Lemma str_inj (a b : string) : str a = str b -> a = b.
Proof.
  revert b. induction a as [|x a IH]; intros [|y b] H; simpl in H;
    try discriminate; [reflexivity|].
  injection H as Hxy Hab. apply chr_inj in Hxy. apply IH in Hab.
  subst. reflexivity.
Qed.

Lemma str_of_nat_inj (i j : nat) : str_of_nat i = str_of_nat j -> i = j.
Proof.
  unfold str_of_nat. intros H.
  apply Unsigned.to_uint_inj.
  pose proof (NilEmpty.usu (Nat.to_uint i)) as Hi.
  pose proof (NilEmpty.usu (Nat.to_uint j)) as Hj.
  rewrite H in Hi. rewrite Hi in Hj. injection Hj as Hj. exact Hj.
Qed.

Lemma tfidf_names_NoDup (n : nat) :
  NoDup (map (fun i => str ("tfidf_" ++ str_of_nat i)) (seq 0 n)).
Proof.
  generalize 0 as start. induction n as [|n IH]; intros start; simpl;
    constructor; [|apply IH].
  rewrite in_map_iff. intros (j & Hj & Hin).
  apply str_inj in Hj. simpl in Hj. injection Hj as Hj.
  apply str_of_nat_inj in Hj. apply in_seq in Hin. lia.
Qed.

Lemma extract_all_features_length (self : FeatureExtractor) (t : text)
    (v : list Q) :
  extract_all_features self t = Ok v ->
  length v = 8 + 5 + vocabulary_size self.
Proof.
  unfold extract_all_features, extract_tfidf_features, Tfidf.transform,
    vocabulary_size.
  destruct (preprocess_email t) as [p|e]; simpl; [|discriminate].
  destruct (fit_state (tfidf_vectorizer self)) as [f|]; simpl;
    [|discriminate].
  intros H. injection H as <-.
  rewrite !length_app, length_basic, length_advanced, length_map. lia.
Qed.

(** X13: [get_feature_names] raises [NotFittedError] before the fit; after it,
    it returns [8 + 5 + V] names, no two of them equal, as many as every
    feature vector has columns. *)
Theorem feature_names_match_columns (self : FeatureExtractor) :
  (fit_state (tfidf_vectorizer self) = None ->
   get_feature_names self = Raise NotFittedError) /\
  (fit_state (tfidf_vectorizer self) <> None ->
   exists names,
     get_feature_names self = Ok names /\
     length names = 8 + 5 + vocabulary_size self /\
     NoDup names /\
     forall t v, extract_all_features self t = Ok v ->
                 length v = length names).
Proof.
  unfold get_feature_names, Tfidf.get_feature_names_out, vocabulary_size.
  destruct (fit_state (tfidf_vectorizer self)) as [f|] eqn:Hf.
  2:{ split; [reflexivity | intros H; contradiction]. }
  split; [discriminate|]. intros _. simpl bind.
  eexists. split; [reflexivity|].
  assert (Hlen : forall n,
            length (map str [ "text_length"; "word_count"; "char_count";
                              "url_count"; "email_count"; "suspicious_count";
                              "uppercase_ratio"; "exclamation_count" ]%string
                    ++ map str [ "avg_word_length"; "sentence_count";
                                 "avg_sentence_length"; "question_count";
                                 "capital_count" ]%string
                    ++ map (fun i => str ("tfidf_" ++ str_of_nat i)) (seq 0 n))
            = 8 + 5 + n).
  { intros n. rewrite !length_app, !length_map, length_seq. reflexivity. }
  split; [apply Hlen|]. split.
  - change (NoDup
              (map str [ "text_length"; "word_count"; "char_count";
                         "url_count"; "email_count"; "suspicious_count";
                         "uppercase_ratio"; "exclamation_count";
                         "avg_word_length"; "sentence_count";
                         "avg_sentence_length"; "question_count";
                         "capital_count" ]%string
               ++ map (fun i => str ("tfidf_" ++ str_of_nat i))
                      (seq 0 (length (vocabulary_ f))))).
    apply NoDup_app.
    + vm_compute.
      repeat (constructor;
              [simpl; intros H;
               repeat (destruct H as [H|H]; [discriminate|]); exact H|]).
      constructor.
    + apply tfidf_names_NoDup.
    + intros a Ha Hin. apply in_map_iff in Hin. destruct Hin as (i & <- & _).
      assert (Hpre : Py.startswith (str "tfidf_")
                       (str ("tfidf_" ++ str_of_nat i)) = true)
        by reflexivity.
      revert Hpre. generalize (str ("tfidf_" ++ str_of_nat i)) Ha.
      intros x Hx. simpl in Hx.
      repeat (destruct Hx as [<-|Hx]; [vm_compute; discriminate|]).
      contradiction.
  - intros t v Hv. apply extract_all_features_length in Hv.
    unfold vocabulary_size in Hv. rewrite Hf in Hv. rewrite Hv.
    symmetry. apply Hlen.
Qed.

End FeatureNames.

Lemma feature_names_match_columns_witness :
  fit_state (tfidf_vectorizer sample_fitted) <> None /\
  exists names,
    get_feature_names sample_fitted = Ok names /\ length names = 19.
Proof.
  assert (H : fit_state (tfidf_vectorizer sample_fitted) <> None)
    by (vm_compute; discriminate).
  split; [exact H|].
  destruct (proj2 (feature_names_match_columns sample_fitted) H)
    as (names & Hn & Hlen & _).
  exists names. split; [exact Hn | exact Hlen].
Defined.

(** ** Fitting and the training matrix *)

Section Fitting.
Context {U : Unicode} {L : TextLibs} {K : Sklearn}.

Hypothesis HL : libs_return L.

Lemma extract_all_features_fitted (self : FeatureExtractor) (f : TfidfFit)
    (t : text) :
  fit_state (tfidf_vectorizer self) = Some f ->
  exists v, extract_all_features self t = Ok v.
Proof.
  intros Hf. unfold extract_all_features, extract_tfidf_features.
  destruct (preprocess_email_returns HL t) as (p & Hp). rewrite Hp. simpl.
  unfold Tfidf.transform. rewrite Hf. simpl. eexists. reflexivity.
Qed.


End Fitting.


(** ** Predicting *)

Section Predicting.
Context {U : Unicode} {L : TextLibs} {K : Sklearn} {E : Estimators}.

(** X17: On a fresh process, [predict_phishing] answers "Model not loaded"
    exactly when [load_model_components] returned [False]. *)
Theorem not_loaded_iff_load_failed (files : ModelFiles) (t : text) :
  App.predict_phishing (fst (App.load_model_components files App.init)) t
    = NotLoaded
  <-> snd (App.load_model_components files App.init) = false.
Proof.
  unfold App.load_model_components, App.predict_phishing.
  destruct files as [[m|e1] [fe|e2] [sc|e3]]; simpl;
    try (split; reflexivity).
  split; [|discriminate].
  destruct (bind _ _); discriminate.
Qed.

Lemma predicted_iff_cli (t : text) (m : Classifier) (fe : FeatureExtractor)
    (sc : StandardScaler) (r : Prediction) :
  App.predict_phishing
    {| model := Some m; feature_extractor := Some fe; scaler := Some sc |} t
  = Predicted r
  <-> Cli.predict_email t m fe sc = Some r.
Proof.
  unfold Cli.predict_email, App.predict_phishing. simpl.
  destruct (extract_all_features fe t) as [v|e]; simpl;
    [|split; discriminate].
  destruct (scaler_transform sc [v]) as [X|e]; simpl; [|split; discriminate].
  destruct (predict m X) as [ps|e]; simpl; [|split; discriminate].
  destruct (index ps 0) as [label|e]; simpl; [|split; discriminate].
  destruct (predict_proba m X) as [pr|e]; simpl; [|split; discriminate].
  destruct (index pr 0) as [row|e]; simpl; [|split; discriminate].
  destruct (index row 0) as [p0|e0], (index row 1) as [p1|e1]; simpl;
    try (split; discriminate).
  split; intros H; injection H as <-; reflexivity.
Qed.

(** X18: A failed load is not rolled back: when the classifier file loads
    and a later file does not, the globals are left with the new
    classifier, the new extractor if its file loaded and the old one
    otherwise, and the old scaler.  If a bundle was loaded before,
    [predict_phishing] never answers "Model not loaded" afterwards: it
    runs these mixed components, and returns a prediction exactly when
    [cli.predict_email] on the three of them returns it. *)
Theorem failed_reload_keeps_serving (files : ModelFiles) (g : Globals)
    (m0 m : Classifier) (fe0 : FeatureExtractor) (sc0 : StandardScaler) :
  model g = Some m0 ->
  feature_extractor g = Some fe0 ->
  scaler g = Some sc0 ->
  phishing_model_pkl files = Ok m ->
  snd (App.load_model_components files g) = false ->
  let fe' := match feature_extractor_pkl files with
             | Ok fe => fe
             | Raise _ => fe0
             end in
  fst (App.load_model_components files g)
  = {| model := Some m; feature_extractor := Some fe'; scaler := Some sc0 |} /\
  forall t,
    App.predict_phishing (fst (App.load_model_components files g)) t
    <> NotLoaded /\
    App.predict_phishing (fst (App.load_model_components files g)) t
    = App.predict_phishing
        {| model := Some m; feature_extractor := Some fe';
           scaler := Some sc0 |} t /\
    forall r,
      App.predict_phishing (fst (App.load_model_components files g)) t
      = Predicted r
      <-> Cli.predict_email t m fe' sc0 = Some r.
Proof.
  intros Hm Hfe Hsc Hfile Hfail fe'.
  assert (Hstate : fst (App.load_model_components files g)
                   = {| model := Some m; feature_extractor := Some fe';
                        scaler := Some sc0 |}).
  { subst fe'. unfold App.load_model_components in *. rewrite Hfile in *.
    destruct (feature_extractor_pkl files) as [fe|e2]; simpl in *.
    - destruct (scaler_pkl files) as [sc|e3]; simpl in *; [discriminate|].
      rewrite Hsc. reflexivity.
    - rewrite Hfe, Hsc. reflexivity. }
  split; [exact Hstate|].
  intros t. rewrite Hstate. split; [|split; [reflexivity|]].
  - unfold App.predict_phishing. simpl. destruct (bind _ _); discriminate.
  - intros r. apply predicted_iff_cli.
Qed.

(** X20: The web and the command-line front end agree: [cli.predict_email]
    returns the dictionary that [app.predict_phishing] returns for the
    same components, and [None] where that one returns an error. *)
Theorem web_and_cli_agree (t : text) (m : Classifier)
    (fe : FeatureExtractor) (sc : StandardScaler) :
  Cli.predict_email t m fe sc
  = match App.predict_phishing
            {| model := Some m; feature_extractor := Some fe;
               scaler := Some sc |} t with
    | Predicted r => Some r
    | _ => None
    end.
Proof.
  unfold Cli.predict_email, App.predict_phishing. simpl.
  destruct (extract_all_features fe t) as [v|e]; simpl; [|reflexivity].
  destruct (scaler_transform sc [v]) as [X|e]; simpl; [|reflexivity].
  destruct (predict m X) as [ps|e]; simpl; [|reflexivity].
  destruct (index ps 0) as [label|e]; simpl; [|reflexivity].
  destruct (predict_proba m X) as [pr|e]; simpl; [|reflexivity].
  destruct (index pr 0) as [row|e]; simpl; [|reflexivity].
  destruct (index row 0) as [p0|e0], (index row 1) as [p1|e1]; reflexivity.
Qed.

Hypothesis HL : libs_return L.


End Predicting.

(** The extractor file is damaged: the classifier is replaced, the old
    extractor and scaler stay, and requests are still answered. *)
Lemma failed_reload_keeps_serving_witness :
  snd (App.load_model_components
         {| phishing_model_pkl := Ok mixed_classifier;
            feature_extractor_pkl := Raise (LibraryError "EOFError");
            scaler_pkl := Ok mixed_scaler |}
         {| model := Some {| n_features_in_ := 19; classes_ := [0; 1] |};
            feature_extractor := Some sample_fitted;
            scaler := Some mixed_scaler |}) = false /\
  fst (App.load_model_components
         {| phishing_model_pkl := Ok mixed_classifier;
            feature_extractor_pkl := Raise (LibraryError "EOFError");
            scaler_pkl := Ok mixed_scaler |}
         {| model := Some {| n_features_in_ := 19; classes_ := [0; 1] |};
            feature_extractor := Some sample_fitted;
            scaler := Some mixed_scaler |})
  = {| model := Some mixed_classifier;
       feature_extractor := Some sample_fitted;
       scaler := Some mixed_scaler |}.
Proof.
  split; [reflexivity|].
  exact (proj1 (@failed_reload_keeps_serving ascii_db plain_libs word_sklearn
                  constant_estimators
                  {| phishing_model_pkl := Ok mixed_classifier;
                     feature_extractor_pkl := Raise (LibraryError "EOFError");
                     scaler_pkl := Ok mixed_scaler |}
                  {| model := Some {| n_features_in_ := 19;
                                      classes_ := [0; 1] |};
                     feature_extractor := Some sample_fitted;
                     scaler := Some mixed_scaler |}
                  {| n_features_in_ := 19; classes_ := [0; 1] |}
                  mixed_classifier sample_fitted mixed_scaler
                  eq_refl eq_refl eq_refl eq_refl eq_refl)).
Defined.


(** A prediction with the stand-in libraries and estimators. *)
Example predict_sample :
  App.predict_phishing
    {| model := Some mixed_classifier; feature_extractor := Some sample_fitted;
       scaler := Some mixed_scaler |} (str "URGENT: verify your account now")
  = Predicted {| prediction := "Phishing";
                 confidence_phishing := 3 # 4;
                 confidence_legitimate := 1 # 4;
                 is_phishing := true |}.
Proof. vm_compute. reflexivity. Qed.

(** ** What the matcher matches *)

Section Soundness.
Context {U : Unicode}.

(** Whatever the matcher consumes is a word of the pattern. *)
Lemma m_sound {A : Type} (r : Re.regex) :
  forall prev s (k : option char -> text -> option A) res,
    Re.m r prev s k = Some res ->
    exists w s' p', s = w ++ s' /\ Lang.lang r w /\ k p' s' = Some res.
Proof.
  induction r as [a|neg items|r1 IH1 r2 IH2|r1 IH1 r2 IH2|r1 IH1|r1 IH1|];
    intros prev s k res H; simpl in H.
  - destruct s as [|c s]; [discriminate|].
    destruct (char_eqb c (chr a)) eqn:Hc; [|discriminate].
    apply N.eqb_eq in Hc. subst c.
    exists [chr a], s, (Some (chr a)).
    split; [reflexivity|]. split; [reflexivity | exact H].
  - destruct s as [|c s]; [discriminate|].
    destruct (Re.set_has neg items c) eqn:Hc; [|discriminate].
    exists [c], s, (Some c). split; [reflexivity|].
    split; [exists c; split; [reflexivity | exact Hc] | exact H].
  - apply IH1 in H. destruct H as (w1 & s1 & p1 & -> & Hw1 & H).
    apply IH2 in H. destruct H as (w2 & s2 & p2 & -> & Hw2 & H).
    exists (w1 ++ w2), s2, p2. split; [apply app_assoc|].
    split; [exists w1, w2; repeat split; assumption | exact H].
  - destruct (Re.m r1 prev s k) eqn:H1.
    + injection H as ->. apply IH1 in H1.
      destruct H1 as (w & s' & p' & -> & Hw & H1).
      exists w, s', p'.
      split; [reflexivity|]. split; [left; exact Hw | exact H1].
    + apply IH2 in H. destruct H as (w & s' & p' & -> & Hw & H).
      exists w, s', p'.
      split; [reflexivity|]. split; [right; exact Hw | exact H].
  - destruct (Re.m r1 prev s k) eqn:H1.
    + injection H as ->. apply IH1 in H1.
      destruct H1 as (w & s' & p' & -> & Hw & H1).
      exists w, s', p'.
      split; [reflexivity|]. split; [right; exact Hw | exact H1].
    + exists [], s, prev.
      split; [reflexivity|]. split; [left; reflexivity | exact H].
  - revert H. generalize (length s) as fuel. intros fuel. revert prev s.
    induction fuel as [|fuel IHf]; intros prev s H; simpl in H.
    + exists [], s, prev.
      split; [reflexivity|]. split; [constructor | exact H].
    + match type of H with
      | match ?b with _ => _ end = _ => destruct b eqn:Hb
      end.
      * injection H as ->. apply IH1 in Hb.
        destruct Hb as (w1 & s1 & p1 & -> & Hw1 & Hb).
        destruct (Nat.ltb (length s1) (length (w1 ++ s1)));
          [|discriminate].
        apply IHf in Hb. destruct Hb as (w2 & s2 & p2 & -> & Hw2 & Hb).
        exists (w1 ++ w2), s2, p2. split; [apply app_assoc|].
        split; [constructor; assumption | exact Hb].
      * exists [], s, prev.
        split; [reflexivity|]. split; [constructor | exact H].
  - destruct (xorb _ _); [|discriminate].
    exists [], s, prev.
    split; [reflexivity|]. split; [reflexivity | exact H].
Qed.

Lemma match_at_sound (r : Re.regex) (prev prev' : option char)
    (s rest : text) :
  Re.match_at r prev s = Some (prev', rest) ->
  Lang.lang r (firstn (length s - length rest) s).
Proof.
  intros H. apply m_sound in H.
  destruct H as (w & s' & p' & -> & Hw & H). injection H as _ ->.
  rewrite length_app, Nat.add_sub.
  rewrite firstn_app, firstn_all, Nat.sub_diag. simpl.
  rewrite app_nil_r. exact Hw.
Qed.

Lemma Forall_gap_cons (P : text -> Prop) (c : char)
    (res : list (text * text) * text) :
  Forall (fun gm => P (snd gm)) (fst res) ->
  Forall (fun gm => P (snd gm)) (fst (Re.gap_cons c res)).
Proof.
  destruct res as [[|[g mt] ps] tl]; simpl; [trivial|].
  intros H. inversion H; subst. constructor; assumption.
Qed.

(** Every match of a scan is a word of the pattern. *)
Lemma scan_sound (r : Re.regex) :
  forall fuel prev s,
    Forall (fun gm => Lang.lang r (snd gm)) (fst (Re.scan fuel r prev s)).
Proof.
  induction fuel as [|fuel IH]; intros prev [|c s]; try (constructor; fail).
  cbn [Re.scan].
  destruct (Re.match_at r prev (c :: s)) as [[prev' rest]|] eqn:Hm.
  - destruct (Nat.ltb (length rest) (length (c :: s))).
    + specialize (IH prev' rest).
      destruct (Re.scan fuel r prev' rest) as [ps tl]. simpl in *.
      constructor; [|exact IH]. simpl.
      exact (@match_at_sound r prev prev' (c :: s) rest Hm).
    + apply Forall_gap_cons, IH.
  - apply Forall_gap_cons, IH.
Qed.

Lemma findall_sound (r : Re.regex) (s : text) :
  Forall (Lang.lang r) (Re.findall r s).
Proof.
  unfold Re.findall, Re.finditer. apply Forall_map. apply scan_sound.
Qed.

(** Every match occurs in the text. *)
Lemma findall_occurs (r : Re.regex) (s : text) :
  Forall (fun w => exists pre post, s = pre ++ w ++ post) (Re.findall r s).
Proof.
  unfold Re.findall.
  pose proof (scan_covers r None s (le_n (length s))) as Hcov.
  fold (Re.finditer r s) in Hcov. unfold Re.unscan in Hcov.
  revert Hcov. generalize (snd (Re.finditer r s)) as tl.
  generalize (fst (Re.finditer r s)) as ps. intros ps. revert s.
  induction ps as [|[g mt] ps IH]; intros s tl Hcov; simpl; constructor.
  - simpl in Hcov. exists g, (concat (map (fun gm => fst gm ++ snd gm) ps) ++ tl).
    rewrite <- Hcov. rewrite <- !app_assoc. reflexivity.
  - simpl in Hcov. rewrite <- app_assoc in Hcov.
    specialize (IH _ tl eq_refl).
    eapply Forall_impl; [|exact IH].
    intros w (pre & post & Hw). exists ((g ++ mt) ++ pre), post.
    rewrite <- Hcov, Hw. rewrite <- !app_assoc. reflexivity.
Qed.

End Soundness.

(** ** Extracted URLs and addresses *)

Section Extracted.
Context {U : Unicode}.

Ltac break_lang :=
  repeat match goal with
         | H : exists _, _ |- _ => destruct H
         | H : _ /\ _ |- _ => destruct H
         | H : _ \/ _ |- _ => destruct H
         end.

Lemma set_single (a : ascii) (c : char) :
  Re.set_has false [Re.Chr a] c = true -> c = chr a.
Proof.
  unfold Re.set_has. simpl. rewrite orb_false_r. apply N.eqb_eq.
Qed.

Lemma url_word_shape (w : text) :
  Lang.lang url_pattern w ->
  (Py.startswith (str "http://") w = true \/
   Py.startswith (str "https://") w = true) /\
  8 <= length w.
Proof.
  unfold url_pattern, Re.Plus. cbn [Lang.lang Re.lits]. intros H.
  break_lang;
    repeat match goal with
           | H : Re.set_has false [Re.Chr _] _ = true |- _ =>
               apply set_single in H
           end;
    subst; cbn [app];
    (split; [first [left; reflexivity | right; reflexivity]
            | simpl; rewrite ?length_app; simpl; lia]).
Qed.

(** X3: Every extracted URL starts with [http://] or [https://], has at least
    one character after it, and occurs in the text. *)
Theorem extracted_urls_shape (t : text) :
  Forall (fun u =>
            (Py.startswith (str "http://") u = true \/
             Py.startswith (str "https://") u = true) /\
            8 <= length u /\
            exists pre post, t = pre ++ u ++ post)
         (extract_urls t).
Proof.
  unfold extract_urls. destruct (falsy t); [constructor|].
  pose proof (findall_sound url_pattern t) as Hs.
  pose proof (findall_occurs url_pattern t) as Ho.
  rewrite Forall_forall in *. intros u Hu.
  destruct (url_word_shape (Hs u Hu)) as (Hscheme & Hlen).
  split; [exact Hscheme|]. split; [exact Hlen | exact (Ho u Hu)].
Qed.

Lemma count_app (a : ascii) (x y : text) :
  Py.count a (x ++ y) = Py.count a x + Py.count a y.
Proof. unfold Py.count. rewrite filter_app, length_app. reflexivity. Qed.

Lemma class_star_chars (negated : bool) (items : list Re.item) (w : text) :
  Lang.star (Lang.lang (Re.Set_ negated items)) w ->
  Forall (fun c => Re.set_has negated items c = true) w.
Proof.
  induction 1 as [|w1 w2 (c & -> & Hc) _ IH]; [constructor|].
  constructor; assumption.
Qed.

Lemma count_outside_class (a : ascii) (negated : bool)
    (items : list Re.item) (w : text) :
  Re.set_has negated items (chr a) = false ->
  Forall (fun c => Re.set_has negated items c = true) w ->
  Py.count a w = 0.
Proof.
  intros Ha. induction 1 as [|c w Hc _ IH]; [reflexivity|].
  unfold Py.count in *. simpl.
  destruct (char_eqb (chr a) c) eqn:Hac; [|exact IH].
  apply N.eqb_eq in Hac. subst c. congruence.
Qed.

Lemma email_word_shape (w : text) :
  Lang.lang email_pattern w -> Py.count "@" w = 1.
Proof.
  unfold email_pattern, Re.Plus, Re.AtLeast2. cbn [Lang.lang]. intros H.
  break_lang; subst.
  repeat match goal with
         | H : Lang.star _ _ |- _ => apply class_star_chars in H
         end.
  rewrite !count_app.
  repeat match goal with
         | H : Forall (fun c => Re.set_has ?n ?items c = true) ?w
           |- context [Py.count "@" ?w] =>
             rewrite (@count_outside_class "@" n items w eq_refl H)
         end.
  repeat match goal with
         | H : Re.set_has false ?items ?c = true
           |- context [Py.count "@" [?c]] =>
             rewrite (@count_outside_class "@" false items [c]
                        eq_refl (Forall_cons c H (Forall_nil _)))
         end.
  reflexivity.
Qed.

Lemma matches_bounded_by_count (a : ascii) (ps : list (text * text))
    (tl : text) :
  Forall (fun gm => Py.count a (snd gm) = 1) ps ->
  length ps <= Py.count a (Re.unscan (ps, tl)).
Proof.
  unfold Re.unscan. simpl.
  induction 1 as [|[g mt] ps Hmt _ IH]; simpl; [lia|].
  rewrite !count_app in *. simpl in Hmt. lia.
Qed.

Lemma emails_bounded_by_at (t : text) :
  length (extract_emails t) <= Py.count "@" t.
Proof.
  unfold extract_emails. destruct (falsy t); [simpl; lia|].
  unfold Re.findall. rewrite length_map.
  pose proof (scan_sound email_pattern (length t) None t) as Hsc.
  fold (Re.finditer email_pattern t) in Hsc.
  pose proof (scan_covers email_pattern None t (le_n _)) as Hcov.
  fold (Re.finditer email_pattern t) in Hcov.
  destruct (Re.finditer email_pattern t) as [ps tl]. simpl in *.
  rewrite <- Hcov. apply matches_bounded_by_count.
  eapply Forall_impl; [|exact Hsc].
  intros gm Hgm. apply email_word_shape. exact Hgm.
Qed.

(** X4: Every extracted address contains exactly one [@] and occurs in the
    text; so a text has at most as many addresses as it has [@]
    characters. *)
Theorem extracted_emails_shape (t : text) :
  Forall (fun a =>
            Py.count "@" a = 1 /\ exists pre post, t = pre ++ a ++ post)
         (extract_emails t) /\
  length (extract_emails t) <= Py.count "@" t.
Proof.
  split; [|apply emails_bounded_by_at].
  unfold extract_emails. destruct (falsy t); [constructor|].
  pose proof (findall_sound email_pattern t) as Hs.
  pose proof (findall_occurs email_pattern t) as Ho.
  rewrite Forall_forall in *. intros a Ha.
  split; [apply email_word_shape, Hs, Ha | exact (Ho a Ha)].
Qed.

End Extracted.

(** ** Removing URLs *)

Section UrlChars.
Context {U : Unicode}.

Ltac numerals :=
  repeat match goal with
         | |- context [chr ?a] =>
             let v := eval vm_compute in (chr a) in change (chr a) with v
         | H : context [chr ?a] |- _ =>
             let v := eval vm_compute in (chr a) in
             change (chr a) with v in H
         end.

Ltac to_props :=
  unfold Re.set_has, Chars.is_url_char, char_eqb in *;
  cbn [existsb Re.item_has] in *; numerals;
  rewrite ?xorb_false_l in *;
  rewrite ?orb_true_iff, ?andb_true_iff, ?orb_false_iff, ?andb_false_iff,
    ?N.leb_le, ?N.leb_gt, ?N.eqb_eq, ?N.eqb_neq in *.

Local Abbreviation letters := [Re.Rng "a" "z"; Re.Rng "A" "Z"].
Local Abbreviation digits := [Re.Rng "0" "9"].
Local Abbreviation marks :=
  [Re.Rng "$" "_"; Re.Chr "@"; Re.Chr "."; Re.Chr "&"; Re.Chr "+"].
Local Abbreviation more_marks :=
  [Re.Chr "!"; Re.Chr "*"; Re.Chr "\"; Re.Chr "("; Re.Chr "\"; Re.Chr ")";
   Re.Chr ","].
Local Abbreviation hex := [Re.Rng "0" "9"; Re.Rng "a" "f"; Re.Rng "A" "F"].

Lemma url_char_classes (c : char) :
  Chars.is_url_char c = true <->
  Re.set_has false letters c = true \/ Re.set_has false digits c = true \/
  Re.set_has false marks c = true \/ Re.set_has false more_marks c = true.
Proof. to_props. lia. Qed.

Lemma hex_is_url_char (c : char) :
  Re.set_has false hex c = true -> Chars.is_url_char c = true.
Proof. to_props. lia. Qed.

End UrlChars.

Section UrlMatching.
Context {U : Unicode}.

Ltac break_lang :=
  repeat match goal with
         | H : exists _, _ |- _ => destruct H
         | H : _ /\ _ |- _ => destruct H
         | H : _ \/ _ |- _ => destruct H
         end.

Local Abbreviation url_chars :=
  (Re.Alt (Re.Set_ false [Re.Rng "a" "z"; Re.Rng "A" "Z"])
  (Re.Alt (Re.Set_ false [Re.Rng "0" "9"])
  (Re.Alt (Re.Set_ false [Re.Rng "$" "_"; Re.Chr "@"; Re.Chr "."; Re.Chr "&";
                          Re.Chr "+"])
  (Re.Alt (Re.Set_ false [Re.Chr "!"; Re.Chr "*"; Re.Chr "\"; Re.Chr "(";
                          Re.Chr "\"; Re.Chr ")"; Re.Chr ","])
          (Re.Cat (Re.Lit "%")
             (Re.Cat (Re.Set_ false [Re.Rng "0" "9"; Re.Rng "a" "f";
                                     Re.Rng "A" "F"])
                     (Re.Set_ false [Re.Rng "0" "9"; Re.Rng "a" "f";
                                     Re.Rng "A" "F"]))))))).

(** A URL at the front of a text: a scheme and one URL character. *)
Lemma url_at_shape (s : text) :
  Chars.url_at s <->
  exists c y,
    Chars.is_url_char c = true /\
    (s = str "http://" ++ c :: y \/ s = str "https://" ++ c :: y).
Proof.
  split.
  - intros (w & rest & -> & H). revert H.
    unfold url_pattern, Re.Plus. cbn [Lang.lang Re.lits]. intros H.
    break_lang;
      repeat match goal with
             | H : Re.set_has false [Re.Chr _] _ = true |- _ =>
                 apply set_single in H
             end;
      subst; cbn [app];
      match goal with
      | |- exists c y, _ /\ (chr "h" :: _ :: _ :: _ :: chr ":" :: _ :: _
                               :: ?c0 :: ?y0 = _ \/ _) =>
          exists c0, y0; split; [|left; reflexivity]
      | |- exists c y, _ /\ (_ \/ chr "h" :: _ :: _ :: _ :: chr "s" :: _ :: _
                                    :: _ :: ?c0 :: ?y0 = _) =>
          exists c0, y0; split; [|right; reflexivity]
      end;
      first [ apply url_char_classes; auto; fail | reflexivity ].
  - intros (c & y & Hc & Hs).
    apply url_char_classes in Hc.
    assert (Hw : Lang.lang url_chars [c]).
    { cbn [Lang.lang].
      destruct Hc as [Hc|[Hc|[Hc|Hc]]];
        [left | right; left | right; right; left | right; right; right; left];
        exists c; split; [reflexivity | exact Hc | reflexivity | exact Hc
                         | reflexivity | exact Hc | reflexivity | exact Hc]. }
    destruct Hs as [-> | ->].
    + exists (str "http://" ++ [c]), y. split; [reflexivity|].
      unfold url_pattern, Re.Plus. cbn [Lang.lang Re.lits].
      exists (str "http"), (str "://" ++ [c]). split; [reflexivity|]. split.
      { exists [chr "h"], (str "ttp"). repeat split.
        exists [chr "t"], (str "tp"). repeat split.
        exists [chr "t"], (str "p"). repeat split. }
      exists [], (str "://" ++ [c]). split; [reflexivity|].
      split; [left; reflexivity|].
      exists (str "://"), [c]. split; [reflexivity|]. split.
      { exists [chr ":"], (str "//"). repeat split.
        exists [chr "/"], (str "/"). repeat split. }
      exists [c], []. split; [reflexivity|]. split; [exact Hw | constructor].
    + exists (str "https://" ++ [c]), y. split; [reflexivity|].
      unfold url_pattern, Re.Plus. cbn [Lang.lang Re.lits].
      exists (str "http"), (str "s://" ++ [c]). split; [reflexivity|]. split.
      { exists [chr "h"], (str "ttp"). repeat split.
        exists [chr "t"], (str "tp"). repeat split.
        exists [chr "t"], (str "p"). repeat split. }
      exists [chr "s"], (str "://" ++ [c]). split; [reflexivity|].
      split; [right; exists (chr "s"); split; reflexivity|].
      exists (str "://"), [c]. split; [reflexivity|]. split.
      { exists [chr ":"], (str "//"). repeat split.
        exists [chr "/"], (str "/"). repeat split. }
      exists [c], []. split; [reflexivity|]. split; [exact Hw | constructor].
Qed.

End UrlMatching.

Section UrlComplete.
Context {U : Unicode}.

Local Abbreviation top :=
  (fun (prev' : option char) (s' : text) => Some (prev', s')).

Local Abbreviation url_chars :=
  (Re.Alt (Re.Set_ false [Re.Rng "a" "z"; Re.Rng "A" "Z"])
  (Re.Alt (Re.Set_ false [Re.Rng "0" "9"])
  (Re.Alt (Re.Set_ false [Re.Rng "$" "_"; Re.Chr "@"; Re.Chr "."; Re.Chr "&";
                          Re.Chr "+"])
  (Re.Alt (Re.Set_ false [Re.Chr "!"; Re.Chr "*"; Re.Chr "\"; Re.Chr "(";
                          Re.Chr "\"; Re.Chr ")"; Re.Chr ","])
          (Re.Cat (Re.Lit "%")
             (Re.Cat (Re.Set_ false [Re.Rng "0" "9"; Re.Rng "a" "f";
                                     Re.Rng "A" "F"])
                     (Re.Set_ false [Re.Rng "0" "9"; Re.Rng "a" "f";
                                     Re.Rng "A" "F"]))))))).

Variable A : Type.
Implicit Types (k : option char -> text -> option A) (r : Re.regex).

Lemma nn_lit (a : ascii) prev (s : text) k :
  k (Some (chr a)) s <> None -> Re.m (Re.Lit a) prev (chr a :: s) k <> None.
Proof. simpl. unfold char_eqb. rewrite N.eqb_refl. trivial. Qed.

Lemma nn_set (n : bool) (items : list Re.item) prev (c : char) (s : text) k :
  Re.set_has n items c = true ->
  k (Some c) s <> None -> Re.m (Re.Set_ n items) prev (c :: s) k <> None.
Proof. simpl. intros ->. trivial. Qed.

Lemma nn_cat r1 r2 prev (s : text) k :
  Re.m r1 prev s (fun p s' => Re.m r2 p s' k) <> None ->
  Re.m (Re.Cat r1 r2) prev s k <> None.
Proof. trivial. Qed.

Lemma nn_alt_l r1 r2 prev (s : text) k :
  Re.m r1 prev s k <> None -> Re.m (Re.Alt r1 r2) prev s k <> None.
Proof. simpl. destruct (Re.m r1 prev s k); [discriminate | congruence]. Qed.

Lemma nn_alt_r r1 r2 prev (s : text) k :
  Re.m r2 prev s k <> None -> Re.m (Re.Alt r1 r2) prev s k <> None.
Proof. simpl. destruct (Re.m r1 prev s k); [discriminate | trivial]. Qed.

Lemma nn_opt_take r prev (s : text) k :
  Re.m r prev s k <> None -> Re.m (Re.Opt r) prev s k <> None.
Proof. simpl. destruct (Re.m r prev s k); [discriminate | congruence]. Qed.

Lemma nn_opt_skip r prev (s : text) k :
  k prev s <> None -> Re.m (Re.Opt r) prev s k <> None.
Proof. simpl. destruct (Re.m r prev s k); [discriminate | trivial]. Qed.

Lemma url_chars_head prev (c : char) (y : text) k :
  k (Some c) y <> None ->
  Chars.is_url_char c = true ->
  Re.m url_chars prev (c :: y) k <> None.
Proof.
  intros Hk Hc. apply url_char_classes in Hc.
  destruct Hc as [Hc|[Hc|[Hc|Hc]]].
  - apply nn_alt_l, nn_set; [exact Hc | exact Hk].
  - apply nn_alt_r, nn_alt_l, nn_set; [exact Hc | exact Hk].
  - apply nn_alt_r, nn_alt_r, nn_alt_l, nn_set; [exact Hc | exact Hk].
  - apply nn_alt_r, nn_alt_r, nn_alt_r, nn_alt_l, nn_set;
      [exact Hc | exact Hk].
Qed.

End UrlComplete.

Section UrlComplete2.
Context {U : Unicode}.

Local Abbreviation top :=
  (fun (prev' : option char) (s' : text) => Some (prev', s')).

Lemma star_loop_top_total (body : Re.matcher (option char * text))
    (fuel : nat) (prev : option char) (s : text) :
  Re.star_loop body top fuel prev s <> None.
Proof.
  destruct fuel; simpl; [discriminate|].
  destruct (body prev s _); discriminate.
Qed.

Ltac step_literal :=
  lazymatch goal with
  | |- Re.m (Re.Cat (Re.Cat _ _) _) _ _ _ <> None => apply nn_cat
  | |- Re.m (Re.Cat (Re.Lit _) _) _ _ _ <> None => apply nn_cat
  | |- Re.m (Re.Cat (Re.Opt _) _) _ _ _ <> None => apply nn_cat
  | |- Re.m (Re.Lit _) _ _ _ <> None => apply nn_lit
  end.

(** Where a URL starts, the pattern matches. *)
Lemma url_match_complete (prev : option char) (s : text) :
  Chars.url_at s -> Re.match_at url_pattern prev s <> None.
Proof.
  intros H. apply url_at_shape in H. destruct H as (c & y & Hc & [-> | ->]);
    unfold Re.match_at, url_pattern, Re.Plus;
    cbn [Re.lits str map list_ascii_of_string app];
    repeat (step_literal; cbv beta).
  - apply nn_opt_skip.
    repeat (step_literal; cbv beta).
    apply url_chars_head; [|exact Hc].
    apply star_loop_top_total.
  - apply nn_opt_take, nn_set; [reflexivity|].
    repeat (step_literal; cbv beta).
    apply url_chars_head; [|exact Hc].
    apply star_loop_top_total.
Qed.

Local Abbreviation url_chars :=
  (Re.Alt (Re.Set_ false [Re.Rng "a" "z"; Re.Rng "A" "Z"])
  (Re.Alt (Re.Set_ false [Re.Rng "0" "9"])
  (Re.Alt (Re.Set_ false [Re.Rng "$" "_"; Re.Chr "@"; Re.Chr "."; Re.Chr "&";
                          Re.Chr "+"])
  (Re.Alt (Re.Set_ false [Re.Chr "!"; Re.Chr "*"; Re.Chr "\"; Re.Chr "(";
                          Re.Chr "\"; Re.Chr ")"; Re.Chr ","])
          (Re.Cat (Re.Lit "%")
             (Re.Cat (Re.Set_ false [Re.Rng "0" "9"; Re.Rng "a" "f";
                                     Re.Rng "A" "F"])
                     (Re.Set_ false [Re.Rng "0" "9"; Re.Rng "a" "f";
                                     Re.Rng "A" "F"]))))))).

(** The greedy loop over URL characters stops only where no URL
    character follows. *)
Lemma url_loop_blocked (fuel : nat) :
  forall prev s res,
    length s <= fuel ->
    Re.star_loop (Re.m url_chars) top fuel prev s = Some res ->
    Chars.blocked (snd res) = true.
Proof.
  induction fuel as [|fuel IH]; intros prev s res Hlen H.
  - destruct s; [|simpl in Hlen; lia]. injection H as <-. reflexivity.
  - cbn [Re.star_loop] in H.
    match type of H with
    | match ?b with _ => _ end = _ => destruct b eqn:Hb
    end.
    + injection H as ->. apply m_suffix in Hb.
      destruct Hb as (p' & s' & pre & Hb & ->).
      destruct (Nat.ltb (length s') (length (pre ++ s'))) eqn:Hlt;
        [|discriminate].
      apply Nat.ltb_lt in Hlt. apply (IH p' s'); [lia | exact Hb].
    + injection H as <-. destruct s as [|c y]; [reflexivity|].
      simpl. destruct (Chars.is_url_char c) eqn:Hc; [|reflexivity].
      exfalso. revert Hb. apply url_chars_head; [|exact Hc].
      assert (Hlt : Nat.ltb (length y) (length (c :: y)) = true)
        by (apply Nat.ltb_lt; simpl; lia).
      rewrite Hlt. apply star_loop_top_total.
Qed.

Lemma m_cat_suffix {A : Type} (r1 r2 : Re.regex) prev (s : text)
    (k : option char -> text -> option A) res :
  Re.m (Re.Cat r1 r2) prev s k = Some res ->
  exists p1 s1 pre, Re.m r2 p1 s1 k = Some res /\ s = pre ++ s1.
Proof. intros H. exact (m_suffix r1 _ _ _ H). Qed.

(** After a URL match comes the end of the text or a character that is
    not a URL character, and the match is not empty. *)
Lemma url_match_blocked (prev prev' : option char) (s rest : text) :
  Re.match_at url_pattern prev s = Some (prev', rest) ->
  Chars.blocked rest = true /\ length rest < length s.
Proof.
  intros H. split.
  - unfold Re.match_at, url_pattern, Re.Plus in H.
    apply m_cat_suffix in H. destruct H as (p1 & s1 & pre1 & H & _).
    apply m_cat_suffix in H. destruct H as (p2 & s2 & pre2 & H & _).
    apply m_cat_suffix in H. destruct H as (p3 & s3 & pre3 & H & _).
    apply m_cat_suffix in H. destruct H as (p4 & s4 & pre4 & H & _).
    exact (@url_loop_blocked (length s4) p4 s4 (prev', rest) (le_n _) H).
  - apply m_sound in H. destruct H as (w & s' & p' & -> & Hw & H).
    injection H as _ ->. apply url_word_shape in Hw.
    rewrite length_app. lia.
Qed.

Lemma prefix_of_blocked (p a x r : text) :
  Forall (fun c => Chars.is_url_char c = true) p ->
  Chars.blocked x = true ->
  a ++ x = p ++ r ->
  exists a', a = p ++ a'.
Proof.
  intros Hp Hx. revert a. induction Hp as [|c p Hc _ IH]; intros a H.
  - exists a. reflexivity.
  - destruct a as [|c' a]; simpl in H.
    + subst x. simpl in Hx. rewrite Hc in Hx. discriminate.
    + injection H as -> H. destruct (IH a H) as (a' & ->).
      exists a'. reflexivity.
Qed.

(** Whether a URL starts at a position does not depend on what follows a
    blocked tail. *)
Lemma url_at_blocked_tail (a x y : text) :
  Chars.blocked x = true ->
  Chars.url_at (a ++ x) -> Chars.url_at (a ++ y).
Proof.
  intros Hx H. apply url_at_shape in H. apply url_at_shape.
  destruct H as (c & y0 & Hc & [H | H]).
  - destruct (@prefix_of_blocked (str "http://" ++ [c]) a x y0) as (a' & ->);
      [ repeat (constructor; [reflexivity|]); constructor;
        [exact Hc | constructor]
      | exact Hx
      | rewrite H, <- app_assoc; reflexivity |].
    exists c, (a' ++ y). split; [exact Hc|]. left.
    rewrite <- !app_assoc. reflexivity.
  - destruct (@prefix_of_blocked (str "https://" ++ [c]) a x y0) as (a' & ->);
      [ repeat (constructor; [reflexivity|]); constructor;
        [exact Hc | constructor]
      | exact Hx
      | rewrite H, <- app_assoc; reflexivity |].
    exists c, (a' ++ y). split; [exact Hc|]. right.
    rewrite <- !app_assoc. reflexivity.
Qed.

End UrlComplete2.

Section UrlRemoval.
Context {U : Unicode}.

(** Scanning for URLs and deleting them leaves a text in which no URL
    starts; the output keeps the input's unmatched front and goes on with
    a blocked tail. *)
Lemma scan_url_free (fuel : nat) :
  forall prev s,
    length s <= fuel ->
    let res := Re.scan fuel url_pattern prev s in
    let out := concat (map fst (fst res)) ++ snd res in
    Chars.url_free out /\
    exists a y x, s = a ++ y /\ out = a ++ x /\ Chars.blocked x = true.
Proof.
  induction fuel as [|fuel IH]; intros prev [|c s] Hlen;
    simpl in Hlen; try lia;
    try (split; [exact I | exists [], [], []; repeat split]).
  cbn zeta. cbn [Re.scan].
  destruct (Re.match_at url_pattern prev (c :: s)) as [[prev' rest]|] eqn:Hm.
  - destruct (url_match_blocked _ _ Hm) as (Hblocked & Hlt).
    apply Nat.ltb_lt in Hlt. rewrite Hlt. apply Nat.ltb_lt in Hlt.
    simpl in Hlt.
    destruct (IH prev' rest) as (Hfree & a & y & x & Hs & Hout & Hx); [lia|].
    destruct (Re.scan fuel url_pattern prev' rest) as [ps tl].
    simpl in *. split; [exact Hfree|].
    exists [], (c :: s), (concat (map fst ps) ++ tl).
    split; [reflexivity|]. split; [reflexivity|].
    rewrite Hout. destruct a as [|c1 a]; [exact Hx|].
    subst rest. exact Hblocked.
  - rewrite sub_gap_cons.
    destruct (IH (Some c) s) as (Hfree & a & y & x & Hs & Hout & Hx); [lia|].
    split.
    + split; [|exact Hfree].
      match goal with
      | |- ~ Chars.url_at (c :: ?o) =>
          replace o with (a ++ x) by (symmetry; exact Hout)
      end.
      intros Hat.
      apply (@url_match_complete _ prev (c :: s)); [|exact Hm].
      rewrite Hs. exact (@url_at_blocked_tail _ (c :: a) x y Hx Hat).
    + exists (c :: a), y, x.
      split; [rewrite Hs; reflexivity|].
      split; [simpl; f_equal; exact Hout | exact Hx].
Qed.

(** In a text where no URL starts, the scan finds nothing. *)
Lemma scan_of_url_free (o : text) :
  Chars.url_free o ->
  forall fuel prev, fst (Re.scan fuel url_pattern prev o) = [].
Proof.
  induction o as [|c o IH]; intros Hfree [|fuel] prev; try reflexivity.
  destruct Hfree as (Hno & Hfree). cbn [Re.scan].
  destruct (Re.match_at url_pattern prev (c :: o)) as [[prev' rest]|] eqn:Hm.
  - exfalso. apply Hno. apply m_sound in Hm.
    destruct Hm as (w & s' & p' & Hs & Hw & _). exists w, s'.
    split; assumption.
  - specialize (IH Hfree fuel (Some c)).
    destruct (Re.scan fuel url_pattern (Some c) o) as [[|[g mt] ps] tl];
      [reflexivity | discriminate].
Qed.

(** X2: After [remove_urls] no URL is left: [extract_urls] finds nothing in
    the result, and removing again changes nothing. *)
Theorem remove_urls_leaves_no_url (t : text) :
  extract_urls (remove_urls t) = [] /\
  remove_urls (remove_urls t) = remove_urls t.
Proof.
  assert (Hfree : Chars.url_free (remove_urls t)).
  { unfold remove_urls, Re.sub_empty, Re.finditer.
    apply (@scan_url_free (length t) None t (le_n _)). }
  pose proof (@scan_of_url_free _ Hfree (length (remove_urls t)) None)
    as Hnone.
  fold (Re.finditer url_pattern (remove_urls t)) in Hnone.
  split.
  - unfold extract_urls. destruct (falsy (remove_urls t)); [reflexivity|].
    unfold Re.findall. rewrite Hnone. reflexivity.
  - pose proof (scan_covers url_pattern None (remove_urls t) (le_n _))
      as Hcov.
    fold (Re.finditer url_pattern (remove_urls t)) in Hcov.
    unfold Re.unscan in Hcov. rewrite Hnone in Hcov. simpl in Hcov.
    unfold remove_urls at 1. unfold Re.sub_empty.
    rewrite Hnone. simpl. exact Hcov.
Qed.

End UrlRemoval.

(** ** Removing and extracting agree *)

Section Removal.
Context {U : Unicode}.

Lemma scan_matches_nonempty (r : Re.regex) :
  forall fuel prev s,
    Forall (fun gm => 1 <= length (snd gm)) (fst (Re.scan fuel r prev s)).
Proof.
  induction fuel as [|fuel IH]; intros prev [|c s]; try (constructor; fail).
  cbn [Re.scan].
  destruct (Re.match_at r prev (c :: s)) as [[prev' rest]|].
  - destruct (Nat.ltb (length rest) (length (c :: s))) eqn:Hlt.
    + apply Nat.ltb_lt in Hlt. specialize (IH prev' rest).
      destruct (Re.scan fuel r prev' rest) as [ps tl].
      constructor; [|exact IH]. cbn [snd].
      rewrite length_firstn. lia.
    + apply (@Forall_gap_cons (fun w : text => 1 <= length w)), IH.
  - apply (@Forall_gap_cons (fun w : text => 1 <= length w)), IH.
Qed.

Lemma unscan_length (ps : list (text * text)) (tl : text) :
  length (Re.unscan (ps, tl))
  = length (concat (map fst ps) ++ tl)
    + list_sum (map (@length char) (map snd ps)).
Proof.
  unfold Re.unscan. simpl.
  induction ps as [|[g mt] ps IH]; simpl; [lia|].
  rewrite !length_app in *. simpl. lia.
Qed.

Lemma removal_accounts (r : Re.regex) (s : text) :
  length s = length (Re.sub_empty r s)
             + list_sum (map (@length char) (Re.findall r s)) /\
  (Re.findall r s = [] <-> Re.sub_empty r s = s).
Proof.
  unfold Re.sub_empty, Re.findall.
  pose proof (scan_covers r None s (le_n _)) as Hcov.
  pose proof (scan_matches_nonempty r (length s) None s) as Hne.
  fold (Re.finditer r s) in Hcov, Hne.
  destruct (Re.finditer r s) as [ps tl]. simpl fst in *. simpl snd in *.
  pose proof (unscan_length ps tl) as Hlen. rewrite Hcov in Hlen.
  split; [exact Hlen|]. split.
  - intros Hnil. destruct ps; [|discriminate]. exact Hcov.
  - intros Hsame. rewrite Hsame in Hlen.
    destruct ps as [|[g mt] ps]; [reflexivity|].
    inversion Hne; subst. simpl in *. lia.
Qed.

(** X5: [remove_urls] deletes exactly the URLs that [extract_urls] lists, and
    [remove_emails] the addresses that [extract_emails] lists: the lengths
    add up, and a text is left unchanged exactly when nothing is
    extracted from it. *)
Theorem removal_matches_extraction (t : text) :
  length t = length (remove_urls t)
             + list_sum (map (@length char) (extract_urls t)) /\
  (extract_urls t = [] <-> remove_urls t = t) /\
  length t = length (remove_emails t)
             + list_sum (map (@length char) (extract_emails t)) /\
  (extract_emails t = [] <-> remove_emails t = t).
Proof.
  unfold extract_urls, extract_emails, remove_urls, remove_emails.
  destruct t as [|c t]; [repeat split; reflexivity|].
  cbn [falsy].
  destruct (removal_accounts url_pattern (c :: t)) as (H1 & H2).
  destruct (removal_accounts email_pattern (c :: t)) as (H3 & H4).
  repeat split; first [assumption | apply H2 | apply H4].
Qed.

End Removal.

(** ** Tokens *)

Section Tokens.
Context {U : Unicode} {L : TextLibs}.

Lemma mapM_ok {A B} (f : A -> result B) (l : list A) (ys : list B) :
  mapM f l = Ok ys -> Forall2 (fun x y => f x = Ok y) l ys.
Proof.
  revert ys. induction l as [|x l IH]; intros ys H; simpl in H.
  - injection H as <-. constructor.
  - destruct (f x) as [y|e] eqn:Hx; simpl in H; [|discriminate].
    destruct (mapM f l) as [ys'|e]; simpl in H; [|discriminate].
    injection H as <-. constructor; [exact Hx | apply IH; reflexivity].
Qed.

(** X6: Every token that [tokenize_and_clean] returns is the stem of a word
    that has more than two characters and is not a stop word; no more
    tokens come out than words went in to the filter. *)
Theorem tokens_are_stems_of_kept_words (t : text) (ts : list text) :
  tokenize_and_clean t = Ok ts ->
  Forall (fun s => exists k,
            stem k = Ok s /\ 2 < length k /\
            existsb (text_eqb k) stop_words = false) ts.
Proof.
  unfold tokenize_and_clean. destruct (falsy t).
  - intros H. injection H as <-. constructor.
  - destruct (word_tokenize (lower t)) as [toks|e]; simpl; [|discriminate].
    destruct (mapM stem (filter keep_token toks)) as [ys|e] eqn:Hm; simpl;
      [|discriminate].
    intros H. injection H as <-. apply mapM_ok in Hm.
    assert (Hkept : Forall (fun k => keep_token k = true)
                           (filter keep_token toks)).
    { apply Forall_forall. intros k Hk. apply filter_In in Hk. apply Hk. }
    revert Hkept. induction Hm as [|k s ks ys Hks _ IH]; intros Hkept;
      constructor.
    + inversion Hkept as [|? ? Hk _]; subst. exists k.
      unfold keep_token in Hk. apply andb_true_iff in Hk.
      destruct Hk as (Hstop & Hlen).
      split; [exact Hks|]. split; [apply Nat.ltb_lt; exact Hlen|].
      apply negb_true_iff. exact Hstop.
    + apply IH. inversion Hkept; assumption.
Qed.

Lemma mapM_raise_first {A B} (f : A -> result B) (l : list A) (e : exn) :
  mapM f l = Raise e <-> first_raise f l e.
Proof.
  unfold first_raise. induction l as [|x l IH]; simpl.
  - split; [discriminate|].
    intros (pre & y & post & Heq & _). destruct pre; discriminate.
  - destruct (f x) as [b|e1] eqn:Hx; simpl.
    + destruct (mapM f l) as [ys|e2]; simpl.
      * split; [discriminate|].
        intros (pre & y & post & Heq & Hpre & Hy).
        destruct pre as [|p pre]; simpl in Heq; injection Heq as -> ->.
        -- congruence.
        -- inversion Hpre; subst.
           assert (Hbad : @Ok (list B) ys = Raise e)
             by (apply IH; exists pre, y, post; auto).
           discriminate.
      * split.
        -- intros H. injection H as ->.
           destruct (proj1 IH eq_refl) as (pre & y & post & -> & Hpre & Hy).
           exists (x :: pre), y, post.
           split; [reflexivity|]. split; [|exact Hy].
           constructor; [exists b; exact Hx | exact Hpre].
        -- intros (pre & y & post & Heq & Hpre & Hy).
           destruct pre as [|p pre]; simpl in Heq; injection Heq as -> ->.
           ++ congruence.
           ++ inversion Hpre; subst.
              apply IH. exists pre, y, post. auto.
    + split.
      * intros H. injection H as ->. exists [], x, l.
        split; [reflexivity|]. split; [constructor | exact Hx].
      * intros (pre & y & post & Heq & Hpre & Hy).
        destruct pre as [|p pre]; simpl in Heq; injection Heq as -> ->.
        -- congruence.
        -- inversion Hpre as [|? ? (b & Hb) _]; subst. congruence.
Qed.

Lemma mapM_returns_on {A B} (f : A -> result B) (l : list A) :
  Forall (fun x => exists y, f x = Ok y) l -> exists ys, mapM f l = Ok ys.
Proof.
  induction 1 as [|x l (y & Hy) _ (ys & Hys)]; simpl.
  - exists []. reflexivity.
  - rewrite Hy, Hys. simpl. exists (y :: ys). reflexivity.
Qed.

(** A substitution by the empty string only deletes characters. *)
Lemma sub_empty_incl (r : Re.regex) (s : text) (c : char) :
  In c (Re.sub_empty r s) -> In c s.
Proof.
  intros H. rewrite <- (@scan_covers _ r (length s) None s (le_n _)).
  unfold Re.sub_empty, Re.finditer in H. unfold Re.unscan.
  destruct (Re.scan (length s) r None s) as [ps tl]. simpl in *.
  apply in_app_or in H. apply in_or_app.
  destruct H as [H|H]; [left | right; exact H].
  induction ps as [|[g mt] ps IH]; simpl in *; [exact H|].
  apply in_app_or in H. apply in_or_app.
  destruct H as [H|H]; [left; apply in_or_app; left; exact H|].
  right. apply IH. exact H.
Qed.

Lemma remove_special_chars_filter (s : text) :
  remove_special_chars s
  = filter (fun c => Chars.is_ascii_letter c || isspace c) s.
Proof.
  unfold remove_special_chars, special_pattern.
  rewrite sub_empty_class. apply filter_ext. intros c.
  unfold Re.set_has, Chars.is_ascii_letter. cbn [existsb Re.item_has].
  change (chr "a") with 97%N. change (chr "z") with 122%N.
  change (chr "A") with 65%N. change (chr "Z") with 90%N.
  destruct (N.leb 97 c && N.leb c 122), (N.leb 65 c && N.leb c 90),
    (isspace c); reflexivity.
Qed.

Lemma filter_none {A} (f : A -> bool) (l : list A) :
  Forall (fun x => f x = false) l -> filter f l = [].
Proof.
  induction 1 as [|x l Hx _ IH]; simpl; [reflexivity|].
  rewrite Hx. exact IH.
Qed.

(** A text without a letter and without whitespace is emptied by the three
    substitutions. *)
Lemma cleaning_without_letters (x : text) :
  Forall (fun c => Chars.is_ascii_letter c || isspace c = false) x ->
  remove_special_chars (remove_emails (remove_urls x)) = [].
Proof.
  intros Hx. rewrite remove_special_chars_filter. apply filter_none.
  rewrite Forall_forall in *. intros c Hc. apply Hx.
  apply (@sub_empty_incl url_pattern). apply (@sub_empty_incl email_pattern).
  exact Hc.
Qed.

Lemma keep_token_none (toks : list text) :
  Forall (fun k => existsb (text_eqb k) stop_words = true \/ length k <= 2)
         toks ->
  filter keep_token toks = [].
Proof.
  intros H. apply filter_none. eapply Forall_impl; [|exact H].
  intros k [Hstop|Hshort]; unfold keep_token.
  - rewrite Hstop. reflexivity.
  - apply Nat.ltb_ge in Hshort. rewrite Hshort. apply andb_false_r.
Qed.

(** C5, as the code has it: [tokenize_and_clean] and [preprocess_email]
    raise nothing of their own and catch nothing.  Each raises exactly when
    one of the library calls it makes raises, and then that exception: the
    tokenizer on the lowered text, or the stemmer on the first kept token
    it fails on; the parser on the text, or the tokenization of the
    cleaned text.  When the calls return, so do they.  Without usable
    content the results are empty: on the empty text, on a parsed text
    that has no letter and no whitespace, and when every token is a stop
    word or has at most two characters. *)
Theorem preprocessing_raises_with_libraries_only (t : text) :
  (forall e,
     tokenize_and_clean t = Raise e <->
     falsy t = false /\
     (word_tokenize (lower t) = Raise e \/
      exists toks,
        word_tokenize (lower t) = Ok toks /\
        first_raise stem (filter keep_token toks) e)) /\
  (forall e,
     preprocess_email t = Raise e <->
     falsy t = false /\
     (get_text t = Raise e \/
      exists x,
        get_text t = Ok x /\
        tokenize_and_clean
          (remove_special_chars (remove_emails (remove_urls x))) = Raise e)) /\
  (forall toks,
     word_tokenize (lower t) = Ok toks ->
     Forall (fun k => exists s, stem k = Ok s) (filter keep_token toks) ->
     exists ts, tokenize_and_clean t = Ok ts) /\
  (forall x ts,
     get_text t = Ok x ->
     tokenize_and_clean
       (remove_special_chars (remove_emails (remove_urls x))) = Ok ts ->
     preprocess_email t
     = Ok (if falsy t then [] else Py.join (str " ") ts)) /\
  (falsy t = true ->
     tokenize_and_clean t = Ok [] /\ preprocess_email t = Ok []) /\
  (forall x,
     get_text t = Ok x ->
     Forall (fun c => Chars.is_ascii_letter c || isspace c = false) x ->
     preprocess_email t = Ok []) /\
  (forall toks,
     word_tokenize (lower t) = Ok toks ->
     Forall (fun k => existsb (text_eqb k) stop_words = true \/ length k <= 2)
            toks ->
     tokenize_and_clean t = Ok []).
Proof.
  split; [|split; [|split; [|split; [|split; [|split]]]]].
  - intros e. unfold tokenize_and_clean. destruct (falsy t).
    { split; [discriminate | intros (H & _); discriminate]. }
    destruct (word_tokenize (lower t)) as [toks|e1]; simpl.
    + split.
      * intros H.
        destruct (mapM stem (filter keep_token toks)) as [ys|e2] eqn:Hm;
          simpl in H; [discriminate|].
        injection H as ->. split; [reflexivity|]. right. exists toks.
        split; [reflexivity|]. apply mapM_raise_first. exact Hm.
      * intros (_ & [H|(toks' & Heq & Hfirst)]); [discriminate|].
        injection Heq as <-. apply mapM_raise_first in Hfirst.
        rewrite Hfirst. reflexivity.
    + split.
      * intros H. injection H as ->. split; [reflexivity|]. left. reflexivity.
      * intros (_ & [H|(toks' & Heq & _)]); [exact H | discriminate].
  - intros e. unfold preprocess_email, remove_html_tags. destruct (falsy t).
    { split; [discriminate | intros (H & _); discriminate]. }
    destruct (get_text t) as [x|e1]; simpl.
    + split.
      * intros H.
        destruct (tokenize_and_clean _) as [ts|e2] eqn:Ht; simpl in H;
          [discriminate|].
        injection H as ->. split; [reflexivity|]. right. exists x.
        split; [reflexivity | exact Ht].
      * intros (_ & [H|(x' & Heq & Ht)]); [discriminate|].
        injection Heq as <-. rewrite Ht. reflexivity.
    + split.
      * intros H. injection H as ->. split; [reflexivity|]. left. reflexivity.
      * intros (_ & [H|(x' & Heq & _)]); [exact H | discriminate].
  - intros toks Htok Hstem. unfold tokenize_and_clean.
    destruct (falsy t); [exists []; reflexivity|].
    rewrite Htok. simpl.
    destruct (mapM_returns_on stem Hstem) as (ys & Hys).
    rewrite Hys. exists ys. reflexivity.
  - intros x ts Hx Hts. unfold preprocess_email, remove_html_tags.
    destruct (falsy t); [reflexivity|].
    rewrite Hx. simpl. rewrite Hts. reflexivity.
  - intros Hempty. unfold preprocess_email, tokenize_and_clean.
    rewrite Hempty. split; reflexivity.
  - intros x Hx Hnone. unfold preprocess_email, remove_html_tags.
    destruct (falsy t); [reflexivity|].
    rewrite Hx. simpl. rewrite (cleaning_without_letters Hnone). reflexivity.
  - intros toks Htok Hnone. unfold tokenize_and_clean.
    destruct (falsy t); [reflexivity|].
    rewrite Htok. simpl. rewrite (keep_token_none Hnone). reflexivity.
Qed.

End Tokens.

(** C5 as stated fails: [preprocess_email] raises on [<![x]], where the
    parser raises. *)
Lemma preprocess_email_raises_on_rejected_markup :
  @preprocess_email ascii_db rejecting_parser_libs rejected_markup
  = Raise (LibraryError "ParserRejectedMarkup").
Proof. reflexivity. Qed.

(** A tokenizer that fails: its exception comes out of the preprocessing. *)
Example preprocess_email_raises_with_tokenizer :
  @preprocess_email ascii_db
    {| get_text := fun t => Ok t;
       word_tokenize := fun _ => Raise (LibraryError "LookupError");
       stem := fun t => Ok t;
       stop_words := [] |} (str "hello") = Raise (LibraryError "LookupError").
Proof. reflexivity. Qed.

Lemma tokens_are_stems_of_kept_words_witness :
  tokenize_and_clean (str "the prize is for you now")
  = Ok [str "prize"; str "now"] /\
  Forall (fun s => exists k,
            stem k = Ok s /\ 2 < length k /\
            existsb (text_eqb k) stop_words = false)
         [str "prize"; str "now"].
Proof.
  split; [reflexivity|].
  exact (@tokens_are_stems_of_kept_words ascii_db plain_libs
           (str "the prize is for you now") [str "prize"; str "now"]
           eq_refl).
Defined.

(** ** The [/predict] route *)

Section RouteFacts.
Context {U : Unicode} {L : TextLibs} {K : Sklearn} {E : Estimators}
        {W : WordCloud}.

Lemma drop_run_all (p : char -> bool) (s : text) :
  Forall (fun c => p c = true) s -> Spec.drop_run p s = [].
Proof.
  induction 1 as [|c s Hc _ IH]; simpl; [reflexivity|].
  rewrite Hc. exact IH.
Qed.

Lemma drop_run_nil_all (p : char -> bool) (s : text) :
  Spec.drop_run p s = [] -> Forall (fun c => p c = true) s.
Proof.
  induction s as [|c s IH]; simpl; [constructor|].
  destruct (p c) eqn:Hc; [|discriminate].
  intros H. constructor; [exact Hc | apply IH; exact H].
Qed.

Lemma strip_blank (s : text) :
  falsy (Route.strip s) = true <-> Forall (fun c => isspace c = true) s.
Proof.
  unfold Route.strip. split.
  - intros H.
    destruct (rev (Spec.drop_run isspace
                     (rev (Spec.drop_run isspace s)))) eqn:Hr;
      [|discriminate].
    apply (f_equal (@rev char)) in Hr. rewrite rev_involutive in Hr.
    simpl in Hr.
    destruct (Spec.drop_run isspace s) as [|c s'] eqn:Hd.
    + apply drop_run_nil_all. exact Hd.
    + exfalso. apply drop_run_nil_all in Hr.
      rewrite Forall_forall in Hr.
      assert (Hc : isspace c = true)
        by (apply Hr; apply -> in_rev; left; reflexivity).
      clear Hr. revert Hd. clear -Hc.
      induction s as [|x s IH]; simpl; [discriminate|].
      destruct (isspace x) eqn:Hx; [exact IH|].
      intros H. injection H as -> _. congruence.
  - intros H. rewrite (drop_run_all _ H). reflexivity.
Qed.

(** X21: A request is answered with status 400 exactly when its body is a
    JSON object whose [email_text] is absent or a string of whitespace
    only, whatever the state of the model, and the message is then
    "Email text is required".  A body that [get_json] rejects, that is no
    object, or whose [email_text] is no string is answered with status
    500. *)
Theorem blank_request_is_rejected (g : Globals) (body : request_body) :
  ((exists err, View.predict g body = ErrorResponse 400 err)
   <-> body = BodyObject FieldAbsent \/
       exists s, body = BodyObject (FieldString s) /\
                 Forall (fun c => isspace c = true) s) /\
  (forall err, View.predict g body = ErrorResponse 400 err ->
               err = EmailTextRequired) /\
  ((forall s, body <> BodyObject (FieldString s)) ->
   body <> BodyObject FieldAbsent ->
   exists e, View.predict g body = ErrorResponse 500 (ServerError e)).
Proof.
  assert (Hroute : forall field err,
            Route.predict g field = ErrorResponse 400 err ->
            err = EmailTextRequired /\
            falsy (Route.strip (match field with Some s => s | None => [] end))
            = true).
  { intros field err. unfold Route.predict.
    destruct (falsy (Route.strip _)).
    - intros H. injection H as <-. split; reflexivity.
    - destruct (App.predict_phishing g _); discriminate. }
  assert (Hblank : forall field,
            falsy (Route.strip (match field with Some s => s | None => [] end))
            = true ->
            Route.predict g field = ErrorResponse 400 EmailTextRequired).
  { intros field H. unfold Route.predict. rewrite H. reflexivity. }
  split; [|split].
  - split.
    + intros (err & H). destruct body as [e| |[|s|]]; simpl in H;
        try discriminate.
      * left. reflexivity.
      * right. exists s. split; [reflexivity|].
        apply strip_blank. apply (Hroute (Some s) err H).
    + intros [->|(s & -> & Hs)]; exists EmailTextRequired; simpl.
      * apply Hblank. reflexivity.
      * apply Hblank. apply strip_blank. exact Hs.
  - intros err H. destruct body as [e| |[|s|]]; simpl in H;
      try discriminate.
    + apply (Hroute None err H).
    + apply (Hroute (Some s) err H).
  - intros Hstr Habs. destruct body as [e| |[|s|]]; simpl.
    + exists e. reflexivity.
    + exists AttributeError. reflexivity.
    + exfalso. apply Habs. reflexivity.
    + exfalso. apply (Hstr s). reflexivity.
    + exists AttributeError. reflexivity.
Qed.

(** X22: While a component is missing, a request with text is answered with
    status 500 and the server-error message of the failed tuple
    unpacking, not with the "Model not loaded" message. *)
Theorem unloaded_model_gives_server_error (g : Globals) (s : text) :
  model g = None \/ feature_extractor g = None \/ scaler g = None ->
  (exists c, In c s /\ isspace c = false) ->
  View.predict g (BodyObject (FieldString s))
  = ErrorResponse 500 (ServerError ValueError).
Proof.
  intros Hnone (c & Hin & Hc). simpl. unfold Route.predict.
  destruct (falsy (Route.strip s)) eqn:Hblank.
  - exfalso. apply strip_blank in Hblank. rewrite Forall_forall in Hblank.
    specialize (Hblank c Hin). congruence.
  - unfold App.predict_phishing.
    destruct (model g), (feature_extractor g), (scaler g);
      try reflexivity.
    destruct Hnone as [H|[H|H]]; discriminate.
Qed.

Lemma drop_run_suffix (p : char -> bool) (s : text) :
  exists pre, s = pre ++ Spec.drop_run p s.
Proof.
  induction s as [|c s (pre & IH)]; simpl; [exists []; reflexivity|].
  destruct (p c); [|exists []; reflexivity].
  exists (c :: pre). simpl. f_equal. exact IH.
Qed.

Lemma drop_run_twice (p : char -> bool) (s : text) :
  Spec.drop_run p (Spec.drop_run p s) = Spec.drop_run p s.
Proof.
  induction s as [|c s IH]; simpl; [reflexivity|].
  destruct (p c) eqn:Hc; [exact IH|]. simpl. rewrite Hc. reflexivity.
Qed.

Lemma strip_idempotent (s : text) : Route.strip (Route.strip s) = Route.strip s.
Proof.
  unfold Route.strip.
  set (a := Spec.drop_run isspace s).
  set (b := Spec.drop_run isspace (rev a)).
  assert (Ha : Spec.drop_run isspace a = a) by apply drop_run_twice.
  assert (Hb : Spec.drop_run isspace b = b) by apply drop_run_twice.
  destruct (drop_run_suffix isspace (rev a)) as (pre & Hpre). fold b in Hpre.
  assert (Hfront : Spec.drop_run isspace (rev b) = rev b).
  { apply (f_equal (@rev char)) in Hpre.
    rewrite rev_involutive, rev_app_distr in Hpre.
    destruct (rev b) as [|c rb] eqn:Hrb; [reflexivity|].
    simpl in Hpre. rewrite Hpre in Ha. simpl in Ha. simpl.
    destruct (isspace c) eqn:Hc; [|reflexivity].
    exfalso. pose proof (length_drop_run isspace (rb ++ rev pre)) as Hlen.
    rewrite Ha in Hlen. simpl in Hlen. lia. }
  rewrite Hfront, rev_involutive, Hb. reflexivity.
Qed.

(** X23: Whitespace around the submitted text is ignored: a request gets the
    answer that the same request with the text stripped would get. *)
Theorem route_ignores_surrounding_whitespace (g : Globals) (s : text) :
  Route.predict g (Some s) = Route.predict g (Some (Route.strip s)).
Proof.
  unfold Route.predict. rewrite strip_idempotent. reflexivity.
Qed.

End RouteFacts.

Lemma unloaded_model_gives_server_error_witness :
  (model App.init = None \/ feature_extractor App.init = None
   \/ scaler App.init = None) /\
  (exists c, In c (str " Click here now ") /\ isspace c = false) /\
  View.predict App.init (BodyObject (FieldString (str " Click here now "))) =
    ErrorResponse 500 (ServerError ValueError).
Proof.
  assert (Htext : exists c, In c (str " Click here now ")
                            /\ isspace c = false).
  { exists (chr "C"). split; [right; left; reflexivity | reflexivity]. }
  split; [left; reflexivity|]. split; [exact Htext|].
  exact (@unloaded_model_gives_server_error ascii_db plain_libs
           word_sklearn constant_estimators no_wordcloud App.init
           (str " Click here now ") (or_introl eq_refl) Htext).
Defined.

(** [test_predict_empty_email] of the repository's tests. *)
Example test_predict_empty_email :
  View.predict App.init (BodyObject (FieldString (str "")))
  = ErrorResponse 400 EmailTextRequired.
Proof. reflexivity. Qed.

(** The request of [test_predict_invalid_json]: [get_json] raises
    [BadRequest] inside the [try], so the outer handler answers 500 (the
    test asserts 400). *)
Example invalid_json_answered_500 :
  View.predict App.init (BodyRejected (LibraryError "BadRequest"))
  = ErrorResponse 500 (ServerError (LibraryError "BadRequest")).
Proof. reflexivity. Qed.

(** ** Counts against the text length *)

Section CountBounds.
Context {U : Unicode}.

Lemma sum_of_long_words (n : nat) (l : list text) :
  Forall (fun w => n <= length w) l ->
  n * length l <= list_sum (map (@length char) l).
Proof. induction 1 as [|w l Hw _ IH]; simpl; lia. Qed.

Lemma two_counts_le_length (a b : ascii) (s : text) :
  chr a <> chr b -> Py.count a s + Py.count b s <= length s.
Proof.
  intros Hab. unfold Py.count, char_eqb.
  induction s as [|c s IH]; simpl; [lia|].
  destruct (N.eqb (chr a) c) eqn:Ha, (N.eqb (chr b) c) eqn:Hb; simpl;
    try lia.
  apply N.eqb_eq in Ha, Hb. congruence.
Qed.

Lemma length_split_le (s : text) : length (Py.split s) <= length s.
Proof.
  pose proof (sum_lengths_split_from [] s) as Hsum.
  pose proof (split_from_words_nonempty [] s) as Hne.
  apply length_le_sum_lengths in Hne.
  pose proof (length_filter_le (fun x => negb (isspace x)) s) as Hle.
  unfold Py.split. change (length (@nil char)) with 0 in Hsum. lia.
Qed.

(** X12: No count exceeds what the text can hold: the words, the addresses and
    the uppercase letters are at most as many as the characters, the
    exclamation and question marks together too, and eight times the
    number of URLs is at most the text length. *)
Theorem counts_bounded_by_text_length (t : text) :
  let basic := extract_basic_features t in
  let advanced := extract_advanced_features t in
  (nth 1 basic 0 <= nth 0 basic 0)%Q /\
  (of_int 8 * nth 3 basic 0 <= nth 0 basic 0)%Q /\
  (nth 4 basic 0 <= nth 0 basic 0)%Q /\
  (nth 7 basic 0 + nth 3 advanced 0 <= nth 0 basic 0)%Q /\
  (nth 4 advanced 0 <= nth 0 basic 0)%Q.
Proof.
  destruct t as [|c t]; [cbv zeta; simpl; repeat split; discriminate|].
  cbv zeta. unfold extract_basic_features, extract_advanced_features.
  cbn [falsy nth]. set (s := c :: t).
  split; [|split; [|split; [|split]]].
  - apply of_int_le. apply length_split_le.
  - rewrite <- of_int_mul. apply of_int_le.
    pose proof (proj1 (removal_accounts url_pattern s)) as Hlen.
    assert (Hlong : Forall (fun w => 8 <= length w)
                           (Re.findall url_pattern s)).
    { eapply Forall_impl; [|apply findall_sound].
      intros u Hu. apply url_word_shape. exact Hu. }
    apply sum_of_long_words in Hlong.
    unfold extract_urls. change (falsy s) with false. cbv iota. lia.
  - apply of_int_le.
    pose proof (emails_bounded_by_at s) as Hat.
    pose proof (length_filter_le (char_eqb (chr "@")) s) as Hle.
    unfold Py.count in Hat. lia.
  - rewrite <- of_int_add. apply of_int_le.
    apply two_counts_le_length. discriminate.
  - apply of_int_le. apply length_filter_le.
Qed.

End CountBounds.
